(** * Dating App API: a shallow embedding of [main.py] and [schemas.py]

    The request handlers of [main.py] are embedded as functions in a
    state-and-exception monad over the document store.  The store itself
    ([database.py] and the MongoDB driver behind it) is not part of the
    sources; it is modelled in [Module Database] from the specification.  *)

From Stdlib Require Import ZArith NArith Lia SpecFloat Ascii String.
From stdpp Require Import base numbers strings pretty gmap list sorting.

Local Open Scope string_scope.

(** ** Python values that occur in documents and JSON responses *)

Inductive value :=
  | VNull
  | VBool (b : bool)
  | VInt (n : Z)
  | VFloat (x : spec_float)
  | VStr (s : string)
  | VList (l : list string)
  | VIso (t : Z).   (* the string [t.isoformat()] of the datetime [t] *)

#[global] Instance spec_float_eq_dec : EqDecision spec_float.
Proof. solve_decision. Defined.
#[global] Instance value_eq_dec : EqDecision value.
Proof. solve_decision. Defined.

(** A Python [dict] with string keys. *)
Abbreviation dict := (gmap string value).

(** ** Exceptions and handler outcomes *)

Inductive exn :=
  | HTTPException (status_code : Z) (detail : string)
  | InvalidId (oid : string)          (* bson.errors.InvalidId *)
  | ValidationError                   (* rejected by a store constraint *)
  | OverflowError                     (* an int the driver cannot encode *)
  | ValueError.                       (* a float JSON cannot hold *)

Inductive outcome (A : Type) :=
  | Return (a : A)
  | Raise (e : exn).
Arguments Return {A} a.
Arguments Raise {A} e.

(** The status the framework answers with: an [HTTPException] carries its
    own, any other exception that escapes a handler is a server error. *)
Definition http_status {A} (o : outcome A) : Z :=
  match o with
  | Return _ => 200
  | Raise (HTTPException s _) => s
  | Raise _ => 500
  end.

(** ** Strings *)

Module Py.

(** [s.split(sep)[0]] for a one-character separator: the text before the
    first occurrence of [sep], the whole string when there is none. *)
Fixpoint split_head (sep : ascii) (s : string) : string :=
  match s with
  | "" => ""
  | String c s' => if decide (c = sep) then "" else String c (split_head sep s')
  end.

(** [f"{n}"] for an [int]. *)
Definition format_int (n : Z) : string := pretty n.

(** [random.randint(a, b)]: an integer of [a..b], chosen by the entropy
    the generator consumes. *)
Definition randint (a b : Z) (entropy : Z) : Z :=
  (a + entropy `mod` (b - a + 1))%Z.

End Py.

(** ** ObjectId (bson): 12 bytes, written as 24 hexadecimal digits *)

Module Bson.

Definition oid := N.

Definition hex_val (c : ascii) : option N :=
  let n := N_of_ascii c in
  if decide (48 ≤ n ≤ 57)%N then Some (n - 48)%N
  else if decide (97 ≤ n ≤ 102)%N then Some (n - 87)%N
  else if decide (65 ≤ n ≤ 70)%N then Some (n - 55)%N
  else None.

Definition hex_digit (d : N) : ascii :=
  if decide (d < 10)%N then ascii_of_N (48 + d) else ascii_of_N (87 + d).

(** The number a string of hexadecimal digits writes, continuing from
    [acc]. *)
Fixpoint parse_hex (s : string) (acc : N) : option N :=
  match s with
  | "" => Some acc
  | String c s' =>
      match hex_val c with
      | Some v => parse_hex s' (16 * acc + v)%N
      | None => None
      end
  end.

(** [k] hexadecimal digits of [n], most significant first. *)
Fixpoint hex_fixed (k : nat) (n : N) : string :=
  match k with
  | O => ""
  | S k' => hex_fixed k' (n `div` 16)%N +:+ String (hex_digit (n `mod` 16)%N) ""
  end.

(** ASCII whitespace, which [bytes.fromhex] skips between bytes. *)
Definition is_space (c : ascii) : bool :=
  let n := N_of_ascii c in
  bool_decide ((9 ≤ n ≤ 13)%N ∨ n = 32%N).

(** [bytes.fromhex(s)]: the bytes written as pairs of hexadecimal
    digits, with blanks allowed before each pair and at the end; [None]
    stands for [ValueError]. *)
Fixpoint fromhex (s : string) : option (list N) :=
  match s with
  | "" => Some []
  | String c s' =>
      if is_space c then fromhex s'
      else
        match hex_val c, s' with
        | Some hi, String c' s'' =>
            match hex_val c' with
            | Some lo => cons (16 * hi + lo)%N <$> fromhex s''
            | None => None
            end
        | _, _ => None
        end
  end.

Definition bytes_value (b : list N) : N :=
  fold_left (λ acc x, 256 * acc + x)%N b 0%N.

(** An ObjectId is its bytes.  Twelve bytes are read as a number below
    16^24, which is what the store hands out; the shorter byte strings
    that [ObjectId] lets through (a text with blanks) are numbered from
    16^24 on, apart from each other and from every twelve-byte one. *)
Definition of_bytes (b : list N) : oid :=
  if decide (List.length b = 12%nat) then bytes_value b
  else (16 ^ 24 + 256 ^ N.of_nat (List.length b) + bytes_value b)%N.

(** [ObjectId(s)] for a [str]: the text must have 24 characters and go
    through [bytes.fromhex]; [None] stands for [InvalidId]. *)
Definition ObjectId (s : string) : option oid :=
  if decide (String.length s = 24) then of_bytes <$> fromhex s else None.

(** [str(oid)]. *)
Definition str (o : oid) : string := hex_fixed 24 o.

End Bson.

(** ** The document store *)

Module Database.

(** Modelled from the spec: [database.py] (the store handle [db] and
    [create_document]) and the MongoDB driver are missing from the
    sources.  Following the data model of the specification, every
    stored document carries an identifier generated by the store and the
    timestamp of its insertion next to the fields the caller supplied; a
    collection keeps its documents in insertion order. *)
Record document := Doc {
  doc_id : Bson.oid;        (* "_id" *)
  created_at : Z;           (* "created_at" *)
  fields : dict
}.

#[global] Instance document_eq_dec : EqDecision document.
Proof. solve_decision. Defined.

(** The query documents [main.py] passes to [find], [find_one] and
    [update_one]. *)
Inductive query :=
  | ByField (k : string) (v : value)   (* {k: v} *)
  | ById (o : Bson.oid)                (* {"_id": o} *)
  | ByIdNe (o : Bson.oid)              (* {"_id": {"$ne": o}} *)
  | And (q1 q2 : query)               (* two keys of one query document *)
  | Or (q1 q2 : query).               (* {"$or": [q1, q2]} *)

Fixpoint satisfies (q : query) (d : document) : bool :=
  match q with
  | ByField k v => bool_decide (fields d !! k = Some v)
  | ById o => bool_decide (doc_id d = o)
  | ByIdNe o => bool_decide (doc_id d ≠ o)
  | And q1 q2 => satisfies q1 d && satisfies q2 d
  | Or q1 q2 => satisfies q1 d || satisfies q2 d
  end.

(** Cursor operations, on the documents of one collection. *)
Definition find (q : query) (c : list document) : list document :=
  filter (λ d, satisfies q d) c.

Definition find_one (q : query) (c : list document) : option document :=
  head (find q c).

(** [d1] comes before [d2] in [.sort("created_at", -1)]. *)
Definition newer (d1 d2 : document) : Prop :=
  (created_at d2 ≤ created_at d1)%Z.

#[global] Instance newer_dec d1 d2 : Decision (newer d1 d2).
Proof. unfold newer. apply _. Defined.

Definition sort_desc (c : list document) : list document :=
  merge_sort newer c.

(** [.limit(n)]: the driver reads 0 as "no limit" and a negative [n] as
    its absolute value. *)
Definition limit (n : Z) (c : list document) : list document :=
  if decide (n = 0%Z) then c else take (Z.to_nat (Z.abs n)) c.

(** [update_one(q, {"$set": upd})] on a collection: the first document
    that satisfies [q] gets the keys of [upd], the rest of it stays. *)
Definition set_fields (upd : dict) (d : document) : document :=
  Doc (doc_id d) (created_at d) (upd ∪ fields d).

Fixpoint update_first (q : query) (upd : dict) (c : list document)
  : list document :=
  match c with
  | [] => []
  | d :: c' =>
      if satisfies q d then set_fields upd d :: c'
      else d :: update_first q upd c'
  end.

(** The store: its collections by name, and the next identifier it
    hands out. *)
Record Store := {
  colls : gmap string (list document);
  next_id : Bson.oid
}.

Definition coll (db : Store) (name : string) : list document :=
  default [] (colls db !! name).

Definition empty_store : Store := {| colls := ∅; next_id := 0%N |}.

(** Handlers run in a state monad over the store; an exception leaves
    the writes made before it in place. *)
Definition M (A : Type) : Type := Store → outcome A * Store.

#[global] Instance M_ret : MRet M := λ A a db, (Return a, db).
#[global] Instance M_bind : MBind M := λ A B f m db,
  match m db with
  | (Return a, db') => f a db'
  | (Raise e, db') => (Raise e, db')
  end.

Definition raise {A} (e : exn) : M A := λ db, (Raise e, db).

(** What the driver can encode: an [int] has to fit eight bytes,
    otherwise the call raises [OverflowError] before anything is sent. *)
Definition encodable (v : value) : bool :=
  match v with
  | VInt n => bool_decide (- 2 ^ 63 ≤ n < 2 ^ 63)%Z
  | _ => true
  end.

Definition all_encodable (upd : dict) : bool :=
  bool_decide (map_Forall (λ _ v, encodable v) upd).

(** [db[name].find(q)], [db[name].find_one(q)] and
    [db[name].update_one(q, {"$set": upd})]. *)
Definition db_find (name : string) (q : query) : M (list document) :=
  λ db, (Return (find q (coll db name)), db).

Definition db_find_one (name : string) (q : query) : M (option document) :=
  λ db, (Return (find_one q (coll db name)), db).

Definition db_update_one (name : string) (q : query) (upd : dict) : M unit :=
  λ db,
    if all_encodable upd then
      (Return (),
       {| colls := <[name := update_first q upd (coll db name)]> (colls db);
          next_id := next_id db |})
    else (Raise OverflowError, db).

(** Modelled from the spec: the store-level constraint of the Messaging
    component.  A [message] document is accepted only with a [text] of 1
    to 2000 characters (the bounds of [schemas.Message]); the
    specification states no store-level rejection for the other
    collections. *)
Definition store_constraint (name : string) (data : dict) : bool :=
  if decide (name = "message") then
    match data !! "text" with
    | Some (VStr t) => bool_decide (1 ≤ String.length t ≤ 2000)%nat
    | _ => false
    end
  else true.

(** Modelled from the spec: [create_document(name, data)] of
    [database.py].  It rejects [data] that breaks the store constraint
    with a validation error and writes nothing; otherwise it appends
    [data] to the collection under a fresh identifier and the timestamp
    [now] of the insertion, and returns the identifier as a string. *)
Definition create_document (name : string) (data : dict) (now : Z) : M string :=
  λ db,
    if store_constraint name data then
      let o := next_id db in
      (Return (Bson.str o),
       {| colls := <[name := (coll db name ++ [Doc o now data])%list]> (colls db);
          next_id := N.succ o |})
    else (Raise ValidationError, db).

(** [ObjectId(s)] inside a handler. *)
Definition object_id (s : string) : M Bson.oid :=
  match Bson.ObjectId s with
  | Some o => mret o
  | None => raise (InvalidId s)
  end.

End Database.

(** ** The request handlers of [main.py] *)

Module Main.
Import Database.

(** What a handler hands to the framework for serialisation. *)
Inductive json :=
  | JNull
  | JObj (d : dict)
  | JArr (l : list dict).

(** [to_doc(d)] on a stored document: ["_id"] becomes the string ["id"],
    the datetime becomes its ISO-8601 string. *)
Definition to_doc (d : document) : dict :=
  <["id" := VStr (Bson.str (doc_id d))]>
    (<["created_at" := VIso (created_at d)]> (fields d)).

(** [to_doc(d)] on the result of [find_one]: [None] is returned as is. *)
Definition to_doc_opt (d : option document) : json :=
  match d with
  | None => JNull
  | Some d => JObj (to_doc d)
  end.

(** *** Responses *)

(** The framework renders what a handler returns with
    [json.dumps(..., allow_nan=False)], which raises [ValueError] on a
    float that is not finite.  An exception of the handler passes
    through. *)
Definition is_finite (v : value) : bool :=
  match v with
  | VFloat (S754_infinity _) | VFloat S754_nan => false
  | _ => true
  end.

Definition json_compliant (d : dict) : bool :=
  bool_decide (map_Forall (λ _ v, is_finite v) d).

Definition render (j : json) : outcome json :=
  match j with
  | JNull => Return JNull
  | JObj d => if json_compliant d then Return j else Raise ValueError
  | JArr l => if forallb json_compliant l then Return j else Raise ValueError
  end.

Definition response (o : outcome json) : outcome json :=
  match o with
  | Return j => render j
  | Raise e => Raise e
  end.

(** *** Auth *)

Definition request_otp (now entropy : Z) (email : string) : M dict :=
  let code := Py.format_int (Py.randint 100000 999999 entropy) in
  create_document "otp" {[ "email" := VStr email; "code" := VStr code ]} now;;
  mret {[ "sent" := VBool true; "code" := VStr code ]}.

Definition verify_otp (now : Z) (email code : string) : M dict :=
  docs ← db_find "otp" (ByField "email" (VStr email));
  let doc := head (limit 1 (sort_desc docs)) in
  match doc with
  | None => raise (HTTPException 400 "Invalid code")
  | Some d =>
      if decide (fields d !! "code" ≠ Some (VStr code)) then
        raise (HTTPException 400 "Invalid code")
      else
        existing ← db_find_one "profile" (ByField "email" (VStr email));
        match existing with
        | None =>
            pid ← create_document "profile"
                    {[ "email" := VStr email;
                       "name" := VStr (Py.split_head "@" email) ]} now;
            mret {[ "ok" := VBool true; "profile_id" := VStr pid ]}
        | Some e =>
            mret {[ "ok" := VBool true;
                    "profile_id" := VStr (Bson.str (doc_id e)) ]}
        end
  end.

(** *** Profiles *)

(** The request model [ProfileUpdate]: a field is unset ([None]), set
    to [null] ([Some None]) or set to a value. *)
Module ProfileUpdate.
Record t := {
  name : option (option string);
  age : option (option Z);
  gender : option (option string);
  bio : option (option string);
  interests : option (option (list string));
  photos : option (option (list string));
  location_lat : option (option spec_float);
  location_lng : option (option spec_float)
}.

Definition unset : t :=
  {| name := None; age := None; gender := None; bio := None;
     interests := None; photos := None;
     location_lat := None; location_lng := None |}.
End ProfileUpdate.

Definition dump_field {A} (k : string) (inj : A → value)
    (f : option (option A)) (d : dict) : dict :=
  match f with
  | None => d
  | Some v => <[k := from_option inj VNull v]> d
  end.

(** [payload.model_dump(exclude_unset=True)]. *)
Definition model_dump_exclude_unset (p : ProfileUpdate.t) : dict :=
  dump_field "name" VStr (ProfileUpdate.name p)
  (dump_field "age" VInt (ProfileUpdate.age p)
  (dump_field "gender" VStr (ProfileUpdate.gender p)
  (dump_field "bio" VStr (ProfileUpdate.bio p)
  (dump_field "interests" VList (ProfileUpdate.interests p)
  (dump_field "photos" VList (ProfileUpdate.photos p)
  (dump_field "location_lat" VFloat (ProfileUpdate.location_lat p)
  (dump_field "location_lng" VFloat (ProfileUpdate.location_lng p) ∅))))))).

Definition get_me (profile_id : string) : M dict :=
  o ← object_id profile_id;
  doc ← db_find_one "profile" (ById o);
  match doc with
  | None => raise (HTTPException 404 "Profile not found")
  | Some d => mret (to_doc d)
  end.

Definition update_me (profile_id : string) (payload : ProfileUpdate.t) : M json :=
  let update := model_dump_exclude_unset payload in
  if decide (update = ∅) then mret (JObj {[ "updated" := VBool false ]})
  else
    o ← object_id profile_id;
    db_update_one "profile" (ById o) update;;
    o' ← object_id profile_id;
    doc ← db_find_one "profile" (ById o');
    mret (to_doc_opt doc).

(** *** Discovery *)

Definition discover (profile_id : string) (lim : Z) : M json :=
  o ← object_id profile_id;
  cursor ← db_find "profile" (ByIdNe o);
  mret (JArr (to_doc <$> limit lim cursor)).

(** *** Swipes and matching *)

Definition liked_by (user target : string) : query :=
  And (ByField "user_id" (VStr user))
      (And (ByField "target_id" (VStr target))
           (ByField "action" (VStr "like"))).

Definition match_between (a b : string) : query :=
  Or (And (ByField "user_a" (VStr a)) (ByField "user_b" (VStr b)))
     (And (ByField "user_a" (VStr b)) (ByField "user_b" (VStr a))).

Definition swipe (now : Z) (profile_id target_id action : string) : M dict :=
  if decide (action ≠ "like" ∧ action ≠ "pass") then
    raise (HTTPException 400 "Invalid action")
  else
    create_document "swipe"
      {[ "user_id" := VStr profile_id; "target_id" := VStr target_id;
         "action" := VStr action ]} now;;
    '(is_match, match_id) ←
      (if decide (action = "like") then
         liked_me ← db_find_one "swipe" (liked_by target_id profile_id);
         match liked_me with
         | Some _ =>
             existing ← db_find_one "match" (match_between profile_id target_id);
             match existing with
             | None =>
                 mid ← create_document "match"
                         {[ "user_a" := VStr profile_id;
                            "user_b" := VStr target_id ]} now;
                 mret (true, VStr mid)
             | Some e => mret (true, VStr (Bson.str (doc_id e)))
             end
         | None => mret (false, VNull)
         end
       else mret (false, VNull));
    mret {[ "ok" := VBool true; "match" := VBool is_match;
            "match_id" := match_id ]}.

(** *** Messages *)

Definition list_messages (match_id : string) (lim : Z) : M json :=
  cursor ← db_find "message" (ByField "match_id" (VStr match_id));
  mret (JArr (reverse (to_doc <$> limit lim (sort_desc cursor)))).

(** The default of the [limit] parameter. *)
Definition list_messages_default_limit : Z := 50.

Definition send_message (now : Z) (match_id sender_id text : string) : M json :=
  mid ← create_document "message"
          {[ "match_id" := VStr match_id; "sender_id" := VStr sender_id;
             "text" := VStr text ]} now;
  o ← object_id mid;
  doc ← db_find_one "message" (ById o);
  mret (to_doc_opt doc).

(** *** Matches list *)

(** What ends [matches] early besides [InvalidId]: the uncaught
    [KeyError] of [m_doc[k]] and [TypeError] of [ObjectId(other_id)], and
    the two kinds of counterpart this embedding does not follow ([None],
    for which [ObjectId] makes up a new identifier, and a date, whose
    ISO-8601 text is not modelled). *)
Inductive stop :=
  | KeyError (k : string)
  | TypeError
  | Unmodelled.

(** [m_doc["user_b"] if m_doc["user_a"] == profile_id else m_doc["user_a"]],
    as far as [ObjectId(other_id)] accepts the type of the result. *)
Definition other_id (profile_id : string) (m_doc : dict) : stop + string :=
  match m_doc !! "user_a" with
  | None => inl (KeyError "user_a")
  | Some (VStr a) =>
      if decide (a = profile_id) then
        match m_doc !! "user_b" with
        | None => inl (KeyError "user_b")
        | Some (VStr b) => inr b
        | Some VNull | Some (VIso _) => inl Unmodelled
        | Some _ => inl TypeError
        end
      else inr a
  | Some VNull | Some (VIso _) => inl Unmodelled
  | Some _ => inl TypeError
  end.

(** An element of the answer: [m_doc] and what is stored under
    [m_doc["other"]] ([None] for [null]). *)
Definition match_entry : Type := dict * option dict.

(** The body of [for m in cursor], against the profile collection. *)
Fixpoint matches_loop (profile_id : string) (profiles cursor : list document)
  : stop + outcome (list match_entry) :=
  match cursor with
  | [] => inr (Return [])
  | m :: cursor' =>
      let m_doc := to_doc m in
      match other_id profile_id m_doc with
      | inl s => inl s
      | inr other_id =>
          match Bson.ObjectId other_id with
          | None => inr (Raise (InvalidId other_id))
          | Some o =>
              let other := find_one (ById o) profiles in
              match matches_loop profile_id profiles cursor' with
              | inr (Return out) => inr (Return ((m_doc, to_doc <$> other) :: out))
              | failed => failed
              end
          end
      end
  end.

Definition involving (profile_id : string) : query :=
  Or (ByField "user_a" (VStr profile_id)) (ByField "user_b" (VStr profile_id)).

Definition matches (profile_id : string) (db : Store)
  : (stop + outcome (list match_entry)) * Store :=
  let cursor := sort_desc (find (involving profile_id) (coll db "match")) in
  (matches_loop profile_id (coll db "profile") cursor, db).

End Main.

(** * Vocabulary of the specification *)

Import Database Main.

(** The store after an accepted [create_document]. *)
Definition inserted (name : string) (data : dict) (now : Z) (db : Store) : Store :=
  {| colls := <[name := (coll db name ++ [Doc (next_id db) now data])%list]> (colls db);
     next_id := N.succ (next_id db) |}.

(** The value a handler returned under key [k], if it returned a dict
    that has the key. *)
Definition returned_field (k : string) (o : outcome dict) : option value :=
  match o with
  | Return d => d !! k
  | Raise _ => None
  end.

(** Decimal digits, for the shape of an OTP code. *)
Definition is_digit (c : ascii) : bool :=
  bool_decide (48 ≤ N_of_ascii c ≤ 57)%N.

Fixpoint all_digits (s : string) : bool :=
  match s with
  | "" => true
  | String c s' => is_digit c && all_digits s'
  end.

(** The documents [swipe] inserts, and its answer. *)
Definition swipe_record (user target action : string) : dict :=
  {[ "user_id" := VStr user; "target_id" := VStr target;
     "action" := VStr action ]}.

Definition match_record (a b : string) : dict :=
  {[ "user_a" := VStr a; "user_b" := VStr b ]}.

(** [d] records that [user] liked [target]. *)
Definition is_like (user target : string) (d : document) : Prop :=
  fields d !! "user_id" = Some (VStr user)
  ∧ fields d !! "target_id" = Some (VStr target)
  ∧ fields d !! "action" = Some (VStr "like").

(** [d] is a match of [a] and [b], stored in either order. *)
Definition is_match_between (a b : string) (d : document) : Prop :=
  (fields d !! "user_a" = Some (VStr a) ∧ fields d !! "user_b" = Some (VStr b))
  ∨ (fields d !! "user_a" = Some (VStr b) ∧ fields d !! "user_b" = Some (VStr a)).

#[global] Instance is_like_dec u t d : Decision (is_like u t d).
Proof. unfold is_like. apply _. Defined.

#[global] Instance is_match_between_dec a b d : Decision (is_match_between a b d).
Proof. unfold is_match_between. apply _. Defined.

(** The match records of the unordered pair [{a, b}]. *)
Definition pair_matches (db : Store) (a b : string) : list document :=
  filter (is_match_between a b) (coll db "match").

Definition swipe_response (is_match : bool) (match_id : value) : dict :=
  {[ "ok" := VBool true; "match" := VBool is_match; "match_id" := match_id ]}.

(** [d] is in [c] and strictly newer than every other document of [c]. *)
Definition strictly_newest (d : document) (c : list document) : Prop :=
  d ∈ c ∧ ∀ d', d' ∈ c → d' ≠ d → (created_at d' < created_at d)%Z.

(** The queries, answer and profile document of [verify_otp]. *)
Definition otp_of (email : string) : query := ByField "email" (VStr email).

Definition profile_of (email : string) : query := ByField "email" (VStr email).

(** The record [verify_otp] compares the code with. *)
Definition latest_otp (db : Store) (email : string) : option document :=
  head (sort_desc (find (otp_of email) (coll db "otp"))).

Definition verify_response (pid : string) : dict :=
  {[ "ok" := VBool true; "profile_id" := VStr pid ]}.

Definition profile_shell (email : string) : dict :=
  {[ "email" := VStr email; "name" := VStr (Py.split_head "@" email) ]}.

Definition invalid_code : exn := HTTPException 400 "Invalid code".

(** [d] is the newest OTP record stored for [email]. *)
Definition is_latest_otp (db : Store) (email : string) (d : document) : Prop :=
  d ∈ coll db "otp"
  ∧ fields d !! "email" = Some (VStr email)
  ∧ ∀ d', d' ∈ coll db "otp" → fields d' !! "email" = Some (VStr email) →
          d' ≠ d → (created_at d' < created_at d)%Z.

(** [c] occurs in [s]. *)
Fixpoint has_char (c : ascii) (s : string) : bool :=
  match s with
  | "" => false
  | String c' s' => bool_decide (c' = c) || has_char c s'
  end.

(** The answer of [update_me] to an empty update, and the store after
    a non-empty one. *)
Definition not_updated : json := JObj {[ "updated" := VBool false ]}.

Definition profiles_updated (o : Bson.oid) (upd : dict) (db : Store) : Store :=
  {| colls := <["profile" := update_first (ById o) upd (coll db "profile")]> (colls db);
     next_id := next_id db |}.

(** A request that sets [age] and nothing else. *)
Definition only_age (n : Z) : ProfileUpdate.t :=
  {| ProfileUpdate.name := None; ProfileUpdate.age := Some (Some n);
     ProfileUpdate.gender := None; ProfileUpdate.bio := None;
     ProfileUpdate.interests := None; ProfileUpdate.photos := None;
     ProfileUpdate.location_lat := None; ProfileUpdate.location_lng := None |}.

(** [s] consists of hexadecimal digits. *)
Fixpoint all_hex (s : string) : bool :=
  match s with
  | "" => true
  | String c s' => bool_decide (is_Some (Bson.hex_val c)) && all_hex s'
  end.

(** Every character is a hexadecimal digit or ASCII whitespace. *)
Fixpoint all_hex_or_space (s : string) : bool :=
  match s with
  | "" => true
  | String c s' =>
      (bool_decide (is_Some (Bson.hex_val c)) || Bson.is_space c)
      && all_hex_or_space s'
  end.

Definition not_found : exn := HTTPException 404 "Profile not found".

(** Every stored identifier was handed out by the store, and the
    counter fits the twelve bytes of an ObjectId. *)
Definition well_formed (db : Store) : Prop :=
  (∀ name d, d ∈ coll db name → (doc_id d < next_id db)%N)
  ∧ (next_id db < 16 ^ 24)%N.

(** The document [send_message] inserts. *)
Definition message_record (match_id sender_id text : string) : dict :=
  {[ "match_id" := VStr match_id; "sender_id" := VStr sender_id;
     "text" := VStr text ]}.

(** [d1] may come before [d2] in ascending creation-time order. *)
Definition older (d1 d2 : document) : Prop :=
  (created_at d1 ≤ created_at d2)%Z.



(** [n] messages sent to one match, one clock tick apart. *)
Fixpoint send_many (n : nat) (now : Z) (db : Store) : Store :=
  match n with
  | O => db
  | S n' => send_many n' (now + 1) (snd (send_message now "m1" "u1" "hi" db))
  end.

(** ** Requests and reachable stores *)

(** A request to one of the routes of the application, with the clock
    reading and the random draw it consumes. *)
Inductive request :=
  | RequestOtp (now entropy : Z) (email : string)
  | VerifyOtp (now : Z) (email code : string)
  | GetMe (profile_id : string)
  | UpdateMe (profile_id : string) (payload : ProfileUpdate.t)
  | Discover (profile_id : string) (lim : Z)
  | Swipe (now : Z) (profile_id target_id action : string)
  | Matches (profile_id : string)
  | ListMessages (match_id : string) (lim : Z)
  | SendMessage (now : Z) (match_id sender_id text : string).

(** The store a request leaves behind. *)
Definition store_after (r : request) (db : Store) : Store :=
  match r with
  | RequestOtp now entropy email => snd (request_otp now entropy email db)
  | VerifyOtp now email code => snd (verify_otp now email code db)
  | GetMe pid => snd (get_me pid db)
  | UpdateMe pid payload => snd (update_me pid payload db)
  | Discover pid lim => snd (discover pid lim db)
  | Swipe now pid target action => snd (swipe now pid target action db)
  | Matches pid => snd (matches pid db)
  | ListMessages m lim => snd (list_messages m lim db)
  | SendMessage now m sender text => snd (send_message now m sender text db)
  end.

(** The stores the application can be in, starting from the empty one. *)
Inductive reachable : Store → Prop :=
  | reachable_empty : reachable empty_store
  | reachable_step db r : reachable db → reachable (store_after r db).

(** ** Invariants of the stored data *)

(** Stored identifiers are below the counter and pairwise distinct
    within a collection. *)
Definition ids_fresh (db : Store) : Prop :=
  ∀ name d, d ∈ coll db name → (doc_id d < next_id db)%N.

Definition ids_unique (db : Store) : Prop :=
  ∀ name, NoDup (doc_id <$> coll db name).

(** Every swipe record holds one of the two actions of [schemas.Swipe]. *)
Definition swipes_valid (db : Store) : Prop :=
  ∀ d, d ∈ coll db "swipe" →
    fields d !! "action" = Some (VStr "like")
    ∨ fields d !! "action" = Some (VStr "pass").

(** Both sides of a match record are strings. *)
Definition match_typed (d : document) : Prop :=
  ∃ a b, fields d !! "user_a" = Some (VStr a)
         ∧ fields d !! "user_b" = Some (VStr b).

Definition matches_typed (db : Store) : Prop :=
  ∀ d, d ∈ coll db "match" → match_typed d.

(** The email of a profile, and profiles with pairwise distinct ones. *)
Definition email_of (d : document) : option value := fields d !! "email".

Definition emails_unique (db : Store) : Prop :=
  (∀ d, d ∈ coll db "profile" → ∃ e, email_of d = Some (VStr e))
  ∧ NoDup (email_of <$> coll db "profile").

(** The other side of a match of [profile_id]. *)
Definition counterpart (profile_id : string) (d : document) : option value :=
  if decide (fields d !! "user_a" = Some (VStr profile_id))
  then fields d !! "user_b" else fields d !! "user_a".

(** What one element of the answer of [matches] says about the match
    document it was made from. *)
Definition entry_of (pid : string) (profiles : list document) (d : document)
    (e : match_entry) : Prop :=
  fst e = to_doc d
  ∧ ∃ s o, counterpart pid d = Some (VStr s)
           ∧ Bson.ObjectId s = Some o
           ∧ snd e = to_doc <$> find_one (ById o) profiles.

(** The collections a request may write to. *)
Definition touched (r : request) : list string :=
  match r with
  | RequestOtp _ _ _ => ["otp"]
  | VerifyOtp _ _ _ => ["profile"]
  | UpdateMe _ _ => ["profile"]
  | Swipe _ _ _ _ => ["swipe"; "match"]
  | SendMessage _ _ _ _ => ["message"]
  | GetMe _ | Discover _ _ | Matches _ | ListMessages _ _ => []
  end.

(** The request ends in an exception. *)
Definition raises (r : request) (db : Store) : Prop :=
  match r with
  | RequestOtp now entropy email =>
      ∃ e, fst (request_otp now entropy email db) = Raise e
  | VerifyOtp now email code => ∃ e, fst (verify_otp now email code db) = Raise e
  | GetMe pid => ∃ e, fst (get_me pid db) = Raise e
  | UpdateMe pid payload => ∃ e, fst (update_me pid payload db) = Raise e
  | Discover pid lim => ∃ e, fst (discover pid lim db) = Raise e
  | Swipe now pid target action =>
      ∃ e, fst (swipe now pid target action db) = Raise e
  | Matches pid => ∀ out, fst (matches pid db) ≠ inr (Return out)
  | ListMessages m lim => ∃ e, fst (list_messages m lim db) = Raise e
  | SendMessage now m sender text =>
      ∃ e, fst (send_message now m sender text db) = Raise e
  end.

(** The keys a [ProfileUpdate] can set. *)
Definition update_keys : list string :=
  ["name"; "age"; "gender"; "bio"; "interests"; "photos";
   "location_lat"; "location_lng"].

(** The writes a request is made of. *)
Inductive write : Store → Store → Prop :=
  | write_otp db now email code :
      write db (inserted "otp" {[ "email" := VStr email; "code" := VStr code ]} now db)
  | write_profile db now email :
      find_one (profile_of email) (coll db "profile") = None →
      write db (inserted "profile" (profile_shell email) now db)
  | write_swipe db now p t a :
      a = "like" ∨ a = "pass" →
      write db (inserted "swipe" (swipe_record p t a) now db)
  | write_match db now p t :
      find_one (match_between p t) (coll db "match") = None →
      write db (inserted "match" (match_record p t) now db)
  | write_message db now m sender text :
      (1 ≤ String.length text ≤ 2000)%nat →
      write db (inserted "message" (message_record m sender text) now db)
  | write_update db o upd :
      upd ≠ ∅ → (∀ k, is_Some (upd !! k) → k ∈ update_keys) →
      write db (profiles_updated o upd db).

(** * Verification *)

(** ** The monad and the store *)

Arguments create_document : simpl never.
Arguments Py.randint : simpl never.
Arguments Py.format_int : simpl never.

Ltac run_monad :=
  cbv beta iota delta [mbind M_bind mret M_ret raise db_find db_find_one
                       db_update_one].

Lemma coll_insert_eq db name c nid :
  coll {| colls := <[name := c]> (colls db); next_id := nid |} name = c.
Proof. unfold coll; simpl. by rewrite lookup_insert_eq. Qed.

Lemma coll_insert_ne db name name' c nid :
  name ≠ name' →
  coll {| colls := <[name := c]> (colls db); next_id := nid |} name' = coll db name'.
Proof. intros Hne. unfold coll; simpl. by rewrite lookup_insert_ne. Qed.

Lemma create_document_accepted name data now db :
  store_constraint name data = true →
  create_document name data now db
  = (Return (Bson.str (next_id db)), inserted name data now db).
Proof. intros Hc. unfold create_document. by rewrite Hc. Qed.

Lemma create_document_rejected name data now db :
  store_constraint name data = false →
  create_document name data now db = (Raise ValidationError, db).
Proof. intros Hc. unfold create_document. by rewrite Hc. Qed.

Lemma store_constraint_other name data :
  name ≠ "message" → store_constraint name data = true.
Proof. intros Hne. unfold store_constraint. by rewrite decide_False. Qed.

Lemma coll_inserted_eq name data now db :
  coll (inserted name data now db) name
  = (coll db name ++ [Doc (next_id db) now data])%list.
Proof. apply coll_insert_eq. Qed.

Lemma coll_inserted_ne name name' data now db :
  name ≠ name' → coll (inserted name data now db) name' = coll db name'.
Proof. apply coll_insert_ne. Qed.

(** ** Decimal rendering of a six-digit number *)

Lemma pretty_N_char_digit x : is_digit (pretty_N_char x) = true.
Proof. unfold pretty_N_char. by repeat case_match. Qed.

Lemma pretty_N_six (n : N) :
  (100000 ≤ n ≤ 999999)%N →
  pretty n =
    String (pretty_N_char ((n `div` 100000) `mod` 10))
   (String (pretty_N_char ((n `div` 10000) `mod` 10))
   (String (pretty_N_char ((n `div` 1000) `mod` 10))
   (String (pretty_N_char ((n `div` 100) `mod` 10))
   (String (pretty_N_char ((n `div` 10) `mod` 10))
   (String (pretty_N_char (n `mod` 10)) ""))))).
Proof.
  intros Hn. unfold pretty, pretty_N.
  rewrite decide_False by lia.
  rewrite pretty_N_go_step by lia.
  rewrite pretty_N_go_step by (apply N.div_str_pos; lia).
  rewrite !N.Div0.div_div. change (10 * 10)%N with 100%N.
  rewrite pretty_N_go_step by (apply N.div_str_pos; lia).
  rewrite !N.Div0.div_div. change (100 * 10)%N with 1000%N.
  rewrite pretty_N_go_step by (apply N.div_str_pos; lia).
  rewrite !N.Div0.div_div. change (1000 * 10)%N with 10000%N.
  rewrite pretty_N_go_step by (apply N.div_str_pos; lia).
  rewrite !N.Div0.div_div. change (10000 * 10)%N with 100000%N.
  rewrite pretty_N_go_step by (apply N.div_str_pos; lia).
  rewrite !N.Div0.div_div. change (100000 * 10)%N with 1000000%N.
  rewrite (N.div_small n 1000000) by lia.
  by rewrite pretty_N_go_0.
Qed.

Lemma randint_range (a b entropy : Z) :
  (a ≤ b)%Z → (a ≤ Py.randint a b entropy ≤ b)%Z.
Proof.
  intros Hab. unfold Py.randint.
  pose proof (Z.mod_pos_bound entropy (b - a + 1)) as Hm. lia.
Qed.

Lemma randint_onto (a b n : Z) :
  (a ≤ n ≤ b)%Z → Py.randint a b (n - a) = n.
Proof.
  intros Hn. unfold Py.randint. rewrite Z.mod_small by lia. lia.
Qed.

Lemma format_int_six (n : Z) :
  (100000 ≤ n ≤ 999999)%Z →
  String.length (Py.format_int n) = 6%nat
  ∧ all_digits (Py.format_int n) = true
  ∧ ∃ c rest, Py.format_int n = String c rest ∧ c ≠ "0"%char.
Proof.
  intros Hn. destruct n as [|p|p]; try lia.
  unfold Py.format_int.
  change (pretty (Z.pos p)) with (pretty (N.pos p)).
  rewrite pretty_N_six by lia.
  split; [done|]. split.
  { simpl. by rewrite !pretty_N_char_digit. }
  eexists _, _. split; [done|].
  assert (1 ≤ N.pos p `div` 100000 ≤ 9)%N as Hq.
  { split.
    - apply N.div_le_lower_bound; lia.
    - apply N.lt_succ_r, N.Div0.div_lt_upper_bound; lia. }
  rewrite N.mod_small by lia.
  destruct (N.pos p `div` 100000)%N as [|q]; [lia|].
  assert (q = 1 ∨ q = 2 ∨ q = 3 ∨ q = 4 ∨ q = 5 ∨ q = 6 ∨ q = 7 ∨ q = 8
          ∨ q = 9)%positive as Hcases by lia.
  repeat (destruct Hcases as [-> | Hcases]; [done|]). by subst q.
Qed.

Lemma format_int_inj (m n : Z) : Py.format_int m = Py.format_int n → m = n.
Proof. unfold Py.format_int. apply (inj pretty). Qed.

Lemma request_otp_run now entropy email db :
  let code := Py.format_int (Py.randint 100000 999999 entropy) in
  request_otp now entropy email db
  = (Return {[ "sent" := VBool true; "code" := VStr code ]},
     inserted "otp" {[ "email" := VStr email; "code" := VStr code ]} now db).
Proof.
  intros code. unfold request_otp. run_monad.
  by rewrite create_document_accepted.
Qed.

(** ** C3: requesting a code *)

(** C3 (as amended): for every email, [request_otp] renders the integer it
    draws from 100000..999999 as the code, so the code has six decimal
    digits and the first of them is not 0; every integer of that range can
    be drawn and distinct integers give distinct codes.  The call persists
    exactly one new OTP record (email, code, creation time), returns the
    code, and leaves every other collection as it was. *)
Theorem request_otp_spec (now entropy : Z) (email : string) (db : Store) :
  let n := Py.randint 100000 999999 entropy in
  let code := Py.format_int n in
  let record := {[ "email" := VStr email; "code" := VStr code ]} in
  let db' := snd (request_otp now entropy email db) in
  (100000 ≤ n ≤ 999999)%Z
  ∧ String.length code = 6%nat
  ∧ all_digits code = true
  ∧ (∃ c rest, code = String c rest ∧ c ≠ "0"%char)
  ∧ (∀ m : Z, (100000 ≤ m ≤ 999999)%Z →
       ∃ e, fst (request_otp now e email db)
            = Return {[ "sent" := VBool true; "code" := VStr (Py.format_int m) ]})
  ∧ (∀ m m' : Z, Py.format_int m = Py.format_int m' → m = m')
  ∧ fst (request_otp now entropy email db)
    = Return {[ "sent" := VBool true; "code" := VStr code ]}
  ∧ coll db' "otp" = (coll db "otp" ++ [Doc (next_id db) now record])%list
  ∧ (∀ name, name ≠ "otp" → coll db' name = coll db name).
Proof.
  intros n code record db'.
  pose proof (λ e, request_otp_run now e email db) as Hrun.
  cbv zeta in Hrun.
  assert (Hn : (100000 ≤ n ≤ 999999)%Z) by (apply randint_range; lia).
  destruct (format_int_six n Hn) as (Hlen & Hdig & Hfirst).
  split; [done|]. split; [done|]. split; [done|]. split; [done|].
  split.
  { intros m Hm. exists (m - 100000)%Z.
    by rewrite Hrun, randint_onto. }
  split; [apply format_int_inj|].
  subst db'. rewrite Hrun. simpl.
  split; [done|]. split.
  - apply coll_inserted_eq.
  - intros name Hne. by apply coll_inserted_ne.
Qed.

(** C3 (as stated) fails: no run of [request_otp] returns the code
    "000000", although the claim lists it among the possible outputs. *)
Lemma request_otp_never_000000 :
  ¬ ∃ now entropy email db,
      fst (request_otp now entropy email db)
      = Return {[ "sent" := VBool true; "code" := VStr "000000" ]}.
Proof.
  intros (now & entropy & email & db & Hrun).
  destruct (format_int_six (Py.randint 100000 999999 entropy))
    as (_ & _ & c & rest & Hcode & Hc); [apply randint_range; lia|].
  rewrite request_otp_run in Hrun. simpl fst in Hrun.
  apply (f_equal (returned_field "code")) in Hrun.
  unfold returned_field in Hrun.
  rewrite !lookup_insert_ne, !lookup_singleton_eq in Hrun by done.
  rewrite Hcode in Hrun. congruence.
Qed.

(** ** Swipe and match records *)

Lemma satisfies_liked_by u t d : satisfies (liked_by u t) d ↔ is_like u t d.
Proof.
  unfold liked_by, is_like. simpl.
  rewrite !andb_True, !bool_decide_spec. tauto.
Qed.

Lemma satisfies_match_between a b d :
  satisfies (match_between a b) d ↔ is_match_between a b d.
Proof.
  unfold match_between, is_match_between. simpl.
  rewrite orb_True, !andb_True, !bool_decide_spec. tauto.
Qed.

Lemma is_match_between_comm a b d :
  is_match_between a b d ↔ is_match_between b a d.
Proof. unfold is_match_between. tauto. Qed.

Lemma swipe_record_user u t a : swipe_record u t a !! "user_id" = Some (VStr u).
Proof. reflexivity. Qed.
Lemma swipe_record_target u t a : swipe_record u t a !! "target_id" = Some (VStr t).
Proof. reflexivity. Qed.
Lemma swipe_record_action u t a : swipe_record u t a !! "action" = Some (VStr a).
Proof. reflexivity. Qed.
Lemma match_record_a a b : match_record a b !! "user_a" = Some (VStr a).
Proof. reflexivity. Qed.
Lemma match_record_b a b : match_record a b !! "user_b" = Some (VStr b).
Proof. reflexivity. Qed.

(** ** Queries over an appended collection *)

Lemma find_app q c1 c2 : find q (c1 ++ c2)%list = (find q c1 ++ find q c2)%list.
Proof. apply filter_app. Qed.

Lemma find_nil_iff q c : find q c = [] ↔ ∀ d, d ∈ c → ¬ satisfies q d.
Proof.
  unfold find. split.
  - intros Hnil d Hin Hs. by apply (filter_nil_not_elem_of _ _ d Hnil).
  - intros Hall. induction c as [|d c IH]; [done|].
    rewrite filter_cons_False by (apply Hall; left).
    apply IH. intros e He. apply Hall. by right.
Qed.

Lemma find_one_None q c : find_one q c = None ↔ ∀ d, d ∈ c → ¬ satisfies q d.
Proof.
  unfold find_one. rewrite head_None. apply find_nil_iff.
Qed.

Lemma find_one_Some q c d : find_one q c = Some d → d ∈ c ∧ satisfies q d.
Proof.
  unfold find_one, find. intros Hh.
  apply head_Some_elem_of in Hh. by apply list_elem_of_filter in Hh as [??].
Qed.

Lemma find_one_is_Some q c d : d ∈ c → satisfies q d → is_Some (find_one q c).
Proof.
  intros Hin Hs. destruct (find_one q c) eqn:E; [by eexists|].
  rewrite find_one_None in E. by destruct (E d Hin).
Qed.

Lemma find_one_snoc q c d :
  find_one q (c ++ [d])%list
  = match find_one q c with
    | Some e => Some e
    | None => if satisfies q d then Some d else None
    end.
Proof.
  unfold find_one. rewrite find_app.
  destruct (find q c) as [|e l] eqn:E; simpl; [|done].
  unfold find. rewrite filter_cons, filter_nil.
  destruct (satisfies q d); by rewrite ?decide_True, ?decide_False by done.
Qed.

(** ** What [swipe] computes *)

Lemma swipe_invalid now p t a db :
  a ≠ "like" → a ≠ "pass" →
  swipe now p t a db = (Raise (HTTPException 400 "Invalid action"), db).
Proof.
  intros Hl Hp. unfold swipe. by rewrite decide_True.
Qed.

Lemma swipe_pass now p t db :
  swipe now p t "pass" db
  = (Return (swipe_response false VNull),
     inserted "swipe" (swipe_record p t "pass") now db).
Proof.
  unfold swipe. rewrite decide_False by (intros [_ ?]; done).
  run_monad. by rewrite create_document_accepted.
Qed.

Lemma swipe_like now p t db :
  let db1 := inserted "swipe" (swipe_record p t "like") now db in
  swipe now p t "like" db
  = match find_one (liked_by t p) (coll db1 "swipe") with
    | None => (Return (swipe_response false VNull), db1)
    | Some _ =>
        match find_one (match_between p t) (coll db "match") with
        | None =>
            (Return (swipe_response true (VStr (Bson.str (next_id db1)))),
             inserted "match" (match_record p t) now db1)
        | Some e =>
            (Return (swipe_response true (VStr (Bson.str (doc_id e)))), db1)
        end
    end.
Proof.
  intros db1. unfold swipe. rewrite decide_False by (intros [? _]; done).
  run_monad. rewrite create_document_accepted by done.
  rewrite decide_True by done.
  change (inserted "swipe" _ now db) with db1.
  destruct (find_one (liked_by t p) (coll db1 "swipe")); [|done].
  replace (coll db1 "match") with (coll db "match")
    by (symmetry; by apply coll_inserted_ne).
  destruct (find_one (match_between p t) (coll db "match")); [done|].
  by rewrite create_document_accepted.
Qed.

(** ** C7: the action of a swipe *)

(** C7: [swipe] with an action other than "like" or "pass" fails with the
    client error 400 "Invalid action" and leaves the store as it was; with
    "like" or "pass" it returns normally and the swipe collection is the
    old one followed by one new record of this swipe, whatever swipes
    (identical ones included) were recorded before. *)
Theorem swipe_action_checked (now : Z) (profile_id target_id action : string)
    (db : Store) :
  (action ≠ "like" ∧ action ≠ "pass" →
     swipe now profile_id target_id action db
     = (Raise (HTTPException 400 "Invalid action"), db)
     ∧ http_status (fst (swipe now profile_id target_id action db)) = 400%Z)
  ∧ (action = "like" ∨ action = "pass" →
     ∃ out db',
       swipe now profile_id target_id action db = (Return out, db')
       ∧ coll db' "swipe"
         = (coll db "swipe"
            ++ [Doc (next_id db) now (swipe_record profile_id target_id action)])%list).
Proof.
  split.
  - intros [Hl Hp]. by rewrite swipe_invalid.
  - intros [-> | ->].
    + rewrite swipe_like.
      set (db1 := inserted "swipe" _ now db).
      assert (Hsw : coll db1 "swipe"
        = (coll db "swipe"
           ++ [Doc (next_id db) now (swipe_record profile_id target_id "like")])%list)
        by apply coll_inserted_eq.
      destruct (find_one _ (coll db1 "swipe")).
      * destruct (find_one _ (coll db "match")).
        -- by eexists _, _.
        -- eexists _, _. split; [done|].
           by rewrite coll_inserted_ne.
      * by eexists _, _.
    + rewrite swipe_pass. eexists _, _. split; [done|].
      apply coll_inserted_eq.
Qed.

(** The example of the specification: the action "maybe" is rejected, and
    a repeated like is recorded again. *)
Example swipe_maybe_rejected :
  swipe 7 "A" "B" "maybe" empty_store
  = (Raise (HTTPException 400 "Invalid action"), empty_store).
Proof. reflexivity. Qed.

Example swipe_duplicate_recorded :
  let db1 := snd (swipe 1 "A" "B" "like" empty_store) in
  let db2 := snd (swipe 2 "A" "B" "like" db1) in
  coll db2 "swipe"
  = [Doc 0%N 1%Z (swipe_record "A" "B" "like");
     Doc 1%N 2%Z (swipe_record "A" "B" "like")].
Proof. reflexivity. Qed.

(** ** C1: a mutual like creates one match *)

Lemma pair_matches_find db a b :
  pair_matches db a b = find (match_between a b) (coll db "match").
Proof.
  unfold pair_matches, find. apply list_filter_iff.
  intros d. by rewrite satisfies_match_between.
Qed.

Lemma pair_matches_comm db a b : pair_matches db a b = pair_matches db b a.
Proof.
  unfold pair_matches. apply list_filter_iff.
  intros d. apply is_match_between_comm.
Qed.

Lemma swipe_response_match b v :
  returned_field "match" (Return (swipe_response b v)) = Some (VBool b).
Proof. reflexivity. Qed.

Lemma swipe_response_match_id b v :
  returned_field "match_id" (Return (swipe_response b v)) = Some v.
Proof. reflexivity. Qed.

Lemma not_liked_by_other u t p a now oid :
  u ≠ p → satisfies (liked_by u t) (Doc oid now (swipe_record p a "like")) = false.
Proof.
  intros Hne. apply not_true_is_false. intros Hs.
  apply Is_true_true, satisfies_liked_by in Hs as (Hu & _).
  simpl in Hu. rewrite swipe_record_user in Hu. congruence.
Qed.

Lemma liked_by_own u t now oid :
  satisfies (liked_by u t) (Doc oid now (swipe_record u t "like")) = true.
Proof. apply Is_true_true, satisfies_liked_by. by repeat split. Qed.

Lemma match_between_own a b now oid :
  is_match_between a b (Doc oid now (match_record b a)).
Proof. right. by split. Qed.

(** C1: for distinct profiles A and B, in a store where B has no like on A
    yet and the pair has at most one match record, [swipe(A, B, "like")]
    answers [match: false] and the following [swipe(B, A, "like")] answers
    [match: true] with the identifier of the pair's match record, which is
    then the only one for the unordered pair.  The lookup that guards the
    insert finds a record stored in either order.  A and B are arbitrary,
    so it does not matter who likes first. *)
Theorem mutual_like_matches_once (now1 now2 : Z) (A B : string) (db : Store) :
  A ≠ B →
  (∀ d, d ∈ coll db "swipe" → ¬ is_like B A d) →
  (List.length (pair_matches db A B) ≤ 1)%nat →
  let r1 := swipe now1 A B "like" db in
  let r2 := swipe now2 B A "like" (snd r1) in
  returned_field "match" (fst r1) = Some (VBool false)
  ∧ returned_field "match" (fst r2) = Some (VBool true)
  ∧ (∃ m, pair_matches (snd r2) A B = [m]
          ∧ returned_field "match_id" (fst r2) = Some (VStr (Bson.str (doc_id m))))
  ∧ pair_matches (snd r2) B A = pair_matches (snd r2) A B
  ∧ (∀ c x y, find_one (match_between x y) c = None
              ↔ ∀ d, d ∈ c → ¬ is_match_between x y d).
Proof.
  intros Hne Hfresh Hone r1 r2.
  set (db1 := inserted "swipe" (swipe_record A B "like") now1 db).
  assert (Hr1 : r1 = (Return (swipe_response false VNull), db1)).
  { subst r1. rewrite swipe_like. fold db1.
    unfold db1 at 1. rewrite coll_inserted_eq, find_one_snoc.
    assert (find_one (liked_by B A) (coll db "swipe") = None) as ->.
    { apply find_one_None. intros d Hd Hs. apply (Hfresh d Hd).
      by apply satisfies_liked_by. }
    by rewrite not_liked_by_other. }
  set (db2 := inserted "swipe" (swipe_record B A "like") now2 db1).
  assert (Hm1 : coll db1 "match" = coll db "match")
    by (by apply coll_inserted_ne).
  assert (Hm2 : coll db2 "match" = coll db "match")
    by (unfold db2; by rewrite coll_inserted_ne).
  assert (Hliked : is_Some (find_one (liked_by A B) (coll db2 "swipe"))).
  { eapply (find_one_is_Some _ _ (Doc (next_id db) now1 (swipe_record A B "like"))).
    - unfold db2, db1. rewrite !coll_inserted_eq.
      rewrite !elem_of_app, !list_elem_of_singleton. auto.
    - by rewrite liked_by_own. }
  destruct Hliked as [l Hl].
  assert (Hr2 : r2 = match find_one (match_between B A) (coll db "match") with
                     | None =>
                         (Return (swipe_response true (VStr (Bson.str (next_id db2)))),
                          inserted "match" (match_record B A) now2 db2)
                     | Some e =>
                         (Return (swipe_response true (VStr (Bson.str (doc_id e)))), db2)
                     end).
  { subst r2. rewrite Hr1. simpl snd. rewrite swipe_like.
    fold db2. rewrite Hl, Hm1. done. }
  split; [rewrite Hr1; apply swipe_response_match|].
  rewrite Hr2. clear Hr2 r2.
  destruct (find_one (match_between B A) (coll db "match")) as [e|] eqn:He.
  - split; [apply swipe_response_match|]. split; [|split].
    + exists e. simpl snd. simpl fst.
      split; [|apply swipe_response_match_id].
      rewrite pair_matches_comm, pair_matches_find, Hm2.
      rewrite pair_matches_comm, pair_matches_find in Hone.
      unfold find_one in He.
      destruct (find (match_between B A) (coll db "match")) as [|e' [|e'' rest]];
        simpl in *; [done| congruence | lia].
    + apply pair_matches_comm.
    + intros c x y. rewrite find_one_None.
      by setoid_rewrite satisfies_match_between.
  - split; [apply swipe_response_match|]. split; [|split].
    + exists (Doc (next_id db2) now2 (match_record B A)).
      simpl snd. simpl fst. split; [|apply swipe_response_match_id].
      unfold pair_matches. rewrite coll_inserted_eq, Hm2, filter_app.
      rewrite filter_cons_True, filter_nil by apply match_between_own.
      assert (filter (is_match_between A B) (coll db "match") = []) as ->; [|done].
      change (pair_matches db A B = []).
      rewrite pair_matches_comm, pair_matches_find.
      by apply head_None.
    + apply pair_matches_comm.
    + intros c x y. rewrite find_one_None.
      by setoid_rewrite satisfies_match_between.
Qed.

Lemma mutual_like_matches_once_witness :
  let r1 := swipe 1 "A" "B" "like" empty_store in
  let r2 := swipe 2 "B" "A" "like" (snd r1) in
  returned_field "match" (fst r1) = Some (VBool false)
  ∧ returned_field "match" (fst r2) = Some (VBool true)
  ∧ (∃ m, pair_matches (snd r2) "A" "B" = [m]
          ∧ returned_field "match_id" (fst r2) = Some (VStr (Bson.str (doc_id m))))
  ∧ pair_matches (snd r2) "B" "A" = pair_matches (snd r2) "A" "B"
  ∧ (∀ c x y, find_one (match_between x y) c = None
              ↔ ∀ d, d ∈ c → ¬ is_match_between x y d).
Proof.
  apply (mutual_like_matches_once 1 2 "A" "B" empty_store).
  - discriminate.
  - intros d Hd. by apply elem_of_nil in Hd.
  - vm_compute. lia.
Defined.

(** ** C9: a like on oneself *)

(** C9: [swipe] does not compare the caller with the target.  A call
    [swipe(A, A, "like")] appends the self-swipe and always answers
    [match: true]; when A had no self-like before, the mutual-like lookup
    finds the record that was just appended, and when no match of A with A
    existed, the call creates one whose user_a and user_b are both A and
    returns its identifier. *)
Theorem self_like_matches (now : Z) (A : string) (db : Store) :
  let r := swipe now A A "like" db in
  let own := Doc (next_id db) now (swipe_record A A "like") in
  returned_field "match" (fst r) = Some (VBool true)
  ∧ coll (snd r) "swipe" = (coll db "swipe" ++ [own])%list
  ∧ ((∀ d, d ∈ coll db "swipe" → ¬ is_like A A d) →
       find_one (liked_by A A) (coll (snd r) "swipe") = Some own)
  ∧ ((∀ d, d ∈ coll db "match" → ¬ is_match_between A A d) →
       coll (snd r) "match"
       = (coll db "match"
          ++ [Doc (N.succ (next_id db)) now (match_record A A)])%list
       ∧ returned_field "match_id" (fst r)
         = Some (VStr (Bson.str (N.succ (next_id db))))).
Proof.
  intros r own.
  set (db1 := inserted "swipe" (swipe_record A A "like") now db).
  assert (Hsw : coll db1 "swipe" = (coll db "swipe" ++ [own])%list)
    by apply coll_inserted_eq.
  assert (Hm1 : coll db1 "match" = coll db "match")
    by (by apply coll_inserted_ne).
  assert (Hliked : is_Some (find_one (liked_by A A) (coll db1 "swipe"))).
  { apply (find_one_is_Some _ _ own).
    - rewrite Hsw, elem_of_app, list_elem_of_singleton. auto.
    - unfold own. by rewrite liked_by_own. }
  destruct Hliked as [l Hl].
  assert (Hr : r = match find_one (match_between A A) (coll db "match") with
                   | None =>
                       (Return (swipe_response true (VStr (Bson.str (next_id db1)))),
                        inserted "match" (match_record A A) now db1)
                   | Some e =>
                       (Return (swipe_response true (VStr (Bson.str (doc_id e)))), db1)
                   end).
  { subst r. rewrite swipe_like. fold db1. by rewrite Hl. }
  assert (Hsw' : coll (snd r) "swipe" = (coll db "swipe" ++ [own])%list).
  { rewrite Hr. destruct (find_one (match_between A A) (coll db "match"));
      simpl snd; [done|]. by rewrite coll_inserted_ne. }
  split.
  { rewrite Hr. destruct (find_one (match_between A A) (coll db "match"));
      apply swipe_response_match. }
  split; [done|]. split.
  - intros Hfresh. rewrite Hsw', find_one_snoc.
    assert (find_one (liked_by A A) (coll db "swipe") = None) as ->.
    { apply find_one_None. intros d Hd Hs. apply (Hfresh d Hd).
      by apply satisfies_liked_by. }
    unfold own. by rewrite liked_by_own.
  - intros Hnone. rewrite Hr.
    assert (find_one (match_between A A) (coll db "match") = None) as ->.
    { apply find_one_None. intros d Hd Hs. apply (Hnone d Hd).
      by apply satisfies_match_between. }
    simpl snd. simpl fst. split.
    + by rewrite coll_inserted_eq, Hm1.
    + apply swipe_response_match_id.
Qed.

Example self_like_on_empty_store :
  let r := swipe 5 "A" "A" "like" empty_store in
  returned_field "match" (fst r) = Some (VBool true)
  ∧ coll (snd r) "match" = [Doc 1%N 5%Z (match_record "A" "A")].
Proof. split; reflexivity. Qed.

(** ** Sorting by creation time *)

#[global] Instance newer_trans : Transitive newer.
Proof. unfold newer. intros d1 d2 d3 ??. lia. Qed.

#[global] Instance newer_total : Total newer.
Proof. unfold newer. intros d1 d2. lia. Qed.

Lemma sort_desc_perm c : sort_desc c ≡ₚ c.
Proof. apply merge_sort_Permutation. Qed.

Lemma sort_desc_sorted c : StronglySorted newer (sort_desc c).
Proof. apply Sorted_StronglySorted; [apply _|]. apply Sorted_merge_sort, _. Qed.

Lemma head_sort_desc d c : strictly_newest d c → head (sort_desc c) = Some d.
Proof.
  intros [Hin Hnew].
  pose proof (sort_desc_sorted c) as Hs.
  pose proof (sort_desc_perm c) as Hp.
  destruct (sort_desc c) as [|h s].
  { rewrite <- Hp in Hin. by apply elem_of_nil in Hin. }
  simpl. f_equal.
  destruct (decide (h = d)) as [|Hhd]; [done|exfalso].
  assert (h ∈ c) as Hh by (rewrite <- Hp; left).
  specialize (Hnew h Hh Hhd).
  rewrite <- Hp in Hin. apply elem_of_cons in Hin as [->|Hin]; [done|].
  apply StronglySorted_cons in Hs as [Hall _].
  rewrite Forall_forall in Hall. specialize (Hall d Hin).
  unfold newer in Hall. lia.
Qed.

Lemma head_limit_1 (c : list document) : head (limit 1 c) = head c.
Proof. unfold limit. rewrite decide_False by done. by destruct c. Qed.

(** ** What [verify_otp] computes *)

Lemma verify_otp_run now email code db :
  verify_otp now email code db
  = match latest_otp db email with
    | None => (Raise invalid_code, db)
    | Some d =>
        if decide (fields d !! "code" ≠ Some (VStr code)) then
          (Raise invalid_code, db)
        else
          match find_one (profile_of email) (coll db "profile") with
          | None =>
              (Return (verify_response (Bson.str (next_id db))),
               inserted "profile" (profile_shell email) now db)
          | Some e => (Return (verify_response (Bson.str (doc_id e))), db)
          end
    end.
Proof.
  unfold verify_otp, latest_otp. run_monad. rewrite head_limit_1.
  change (ByField "email" (VStr email)) with (otp_of email).
  destruct (head (sort_desc (find (otp_of email) (coll db "otp")))) as [d|];
    [|done].
  destruct (decide (fields d !! "code" ≠ Some (VStr code))); [done|].
  change (otp_of email) with (profile_of email).
  destruct (find_one (profile_of email) (coll db "profile")); [done|].
  by rewrite create_document_accepted.
Qed.

Lemma latest_otp_strictly_newest db email d :
  strictly_newest d (find (otp_of email) (coll db "otp")) →
  latest_otp db email = Some d.
Proof. apply head_sort_desc. Qed.

Lemma latest_otp_None db email :
  latest_otp db email = None
  ↔ ∀ d, d ∈ coll db "otp" → fields d !! "email" ≠ Some (VStr email).
Proof.
  unfold latest_otp. rewrite head_None. split.
  - intros Hnil d Hd He.
    assert (d ∈ sort_desc (find (otp_of email) (coll db "otp"))) as Hin.
    { rewrite sort_desc_perm. apply list_elem_of_filter. split; [|done].
      simpl. by apply bool_decide_pack. }
    rewrite Hnil in Hin. by apply elem_of_nil in Hin.
  - intros Hall.
    assert (find (otp_of email) (coll db "otp") = []) as ->; [|done].
    apply find_nil_iff. intros d Hd Hs. apply (Hall d Hd).
    simpl in Hs. by apply bool_decide_unpack in Hs.
Qed.

(** ** C4: only the newest code counts *)

Lemma elem_of_find_otp db email d :
  d ∈ find (otp_of email) (coll db "otp")
  ↔ d ∈ coll db "otp" ∧ fields d !! "email" = Some (VStr email).
Proof.
  unfold find. rewrite list_elem_of_filter. simpl.
  rewrite bool_decide_spec. tauto.
Qed.

Lemma is_latest_otp_latest db email d :
  is_latest_otp db email d → latest_otp db email = Some d.
Proof.
  intros (Hin & He & Hnew). apply latest_otp_strictly_newest. split.
  - by apply elem_of_find_otp.
  - intros d' Hd'. apply elem_of_find_otp in Hd' as [??]. by apply Hnew.
Qed.

(** C4: [verify_otp] fails with 400 "Invalid code" when no OTP record is
    stored for the email, and otherwise compares the supplied code, as a
    string, with the code of the newest record for the email only: it
    fails when the two differ, also when an older record for the email
    holds the supplied code, and it goes through when they are equal.  A
    failed call leaves the store as it was. *)
Theorem verify_otp_newest_only (now : Z) (email code : string) (db : Store) :
  ((∀ d, d ∈ coll db "otp" → fields d !! "email" ≠ Some (VStr email)) →
     verify_otp now email code db = (Raise invalid_code, db))
  ∧ (∀ d, is_latest_otp db email d →
       (fields d !! "code" ≠ Some (VStr code) →
          verify_otp now email code db = (Raise invalid_code, db))
       ∧ (fields d !! "code" = Some (VStr code) →
          ∃ out db', verify_otp now email code db = (Return out, db')))
  ∧ (∀ d older, is_latest_otp db email d →
       older ∈ coll db "otp" →
       fields older !! "email" = Some (VStr email) →
       fields older !! "code" = Some (VStr code) →
       fields d !! "code" ≠ Some (VStr code) →
       verify_otp now email code db = (Raise invalid_code, db))
  ∧ http_status (A := dict) (Raise invalid_code) = 400%Z.
Proof.
  assert (Hdiff : ∀ d, is_latest_otp db email d →
            fields d !! "code" ≠ Some (VStr code) →
            verify_otp now email code db = (Raise invalid_code, db)).
  { intros d Hd Hc. rewrite verify_otp_run, (is_latest_otp_latest _ _ _ Hd).
    by rewrite decide_True. }
  split; [|split; [|split]].
  - intros Hnone. rewrite verify_otp_run.
    by rewrite (proj2 (latest_otp_None db email) Hnone).
  - intros d Hd. split; [by apply Hdiff|].
    intros Hc. rewrite verify_otp_run, (is_latest_otp_latest _ _ _ Hd).
    rewrite decide_False by (by intros ?).
    destruct (find_one _ _); by eexists _, _.
  - intros d older Hd _ _ _ Hc. by apply (Hdiff d).
  - done.
Qed.

(** Two codes requested for one email, then verification with each. *)
Example verify_otp_older_code_fails :
  let db1 := snd (request_otp 1 11111 "ann@example.com" empty_store) in
  let db2 := snd (request_otp 2 122222 "ann@example.com" db1) in
  (fields <$> coll db2 "otp")
  = [ {[ "email" := VStr "ann@example.com"; "code" := VStr "111111" ]};
      {[ "email" := VStr "ann@example.com"; "code" := VStr "222222" ]} ]
  ∧ verify_otp 3 "ann@example.com" "111111" db2 = (Raise invalid_code, db2)
  ∧ fst (verify_otp 3 "ann@example.com" "222222" db2)
    = Return (verify_response (Bson.str 2%N)).
Proof. vm_compute. done. Qed.

(** ** C5: the profile behind a verified email *)

Lemma split_head_before sep l r :
  has_char sep l = false → Py.split_head sep (l +:+ String sep r) = l.
Proof.
  induction l as [|c l IH]; simpl; intros Hl.
  - by rewrite decide_True.
  - apply orb_false_iff in Hl as [Hc Hl].
    apply bool_decide_eq_false in Hc.
    rewrite decide_False by done. by rewrite IH.
Qed.

Lemma satisfies_profile_shell email oid now :
  satisfies (profile_of email) (Doc oid now (profile_shell email)) = true.
Proof. simpl. by apply bool_decide_eq_true. Qed.

(** C5: when [verify_otp] succeeds and no profile is stored for the email,
    the profile collection grows by exactly one record, whose name is the
    text of the email before its first "@", and the identifier of that
    record is returned; when a profile is stored for the email, the store
    is left as it was and the identifier of that profile is returned.  In
    both cases verifying again returns the same [profile_id] and creates
    nothing. *)
Theorem verify_otp_profile_once (now : Z) (email code : string)
    (db db' : Store) (out : dict) :
  verify_otp now email code db = (Return out, db') →
  ((∀ d, d ∈ coll db "profile" → fields d !! "email" ≠ Some (VStr email)) →
     coll db' "profile"
     = (coll db "profile" ++ [Doc (next_id db) now (profile_shell email)])%list
     ∧ profile_shell email !! "name" = Some (VStr (Py.split_head "@" email))
     ∧ (∀ l r, email = l +:+ String "@" r → has_char "@" l = false →
               Py.split_head "@" email = l)
     ∧ out = verify_response (Bson.str (next_id db)))
  ∧ (∀ e, find_one (profile_of email) (coll db "profile") = Some e →
       db' = db ∧ out = verify_response (Bson.str (doc_id e)))
  ∧ (∀ now', verify_otp now' email code db' = (Return out, db')).
Proof.
  intros Hrun. rewrite verify_otp_run in Hrun.
  destruct (latest_otp db email) as [d|] eqn:Hlatest; [|discriminate].
  destruct (decide _) as [|Hcode]; [discriminate|].
  destruct (find_one (profile_of email) (coll db "profile")) as [e|] eqn:Hprof.
  - injection Hrun as <- <-. split; [|split].
    + intros Hnone. exfalso.
      apply find_one_Some in Hprof as [Hin Hs].
      apply (Hnone e Hin). simpl in Hs. by apply bool_decide_unpack in Hs.
    + intros e' [= <-]. done.
    + intros now'. rewrite verify_otp_run, Hlatest, Hprof.
      by rewrite decide_False.
  - injection Hrun as <- <-. split; [|split].
    + intros _. split; [apply coll_inserted_eq|]. split; [done|].
      split; [|done].
      intros l r -> Hl. by apply split_head_before.
    + intros e [=].
    + intros now'. rewrite verify_otp_run.
      assert (latest_otp (inserted "profile" (profile_shell email) now db) email
              = Some d) as ->.
      { unfold latest_otp. by rewrite coll_inserted_ne. }
      rewrite decide_False by done.
      rewrite coll_inserted_eq, find_one_snoc, Hprof.
      by rewrite satisfies_profile_shell.
Qed.

Lemma verify_otp_profile_once_witness :
  let email := "bob@example.com" in
  let db := snd (request_otp 1 23456 email empty_store) in
  let db' := inserted "profile" (profile_shell email) 2 db in
  let out := verify_response (Bson.str 1%N) in
  verify_otp 2 email "123456" db = (Return out, db')
  ∧ ((∀ d, d ∈ coll db "profile" → fields d !! "email" ≠ Some (VStr email)) →
       coll db' "profile"
       = (coll db "profile" ++ [Doc (next_id db) 2 (profile_shell email)])%list
       ∧ profile_shell email !! "name" = Some (VStr (Py.split_head "@" email))
       ∧ (∀ l r, email = l +:+ String "@" r → has_char "@" l = false →
                 Py.split_head "@" email = l)
       ∧ out = verify_response (Bson.str (next_id db)))
  ∧ (∀ e, find_one (profile_of email) (coll db "profile") = Some e →
       db' = db ∧ out = verify_response (Bson.str (doc_id e)))
  ∧ (∀ now', verify_otp now' email "123456" db' = (Return out, db')).
Proof.
  intros email db db' out.
  assert (Hrun : verify_otp 2 email "123456" db = (Return out, db'))
    by (vm_compute; reflexivity).
  split; [exact Hrun|].
  exact (verify_otp_profile_once 2 email "123456" db db' out Hrun).
Defined.

Example verify_otp_creates_bob :
  let db := snd (request_otp 1 23456 "bob@example.com" empty_store) in
  let r := verify_otp 2 "bob@example.com" "123456" db in
  (fields <$> coll (snd r) "profile")
  = [ {[ "email" := VStr "bob@example.com"; "name" := VStr "bob" ]} ]
  ∧ returned_field "profile_id" (fst r)
    = Some (VStr "000000000000000000000001")
  ∧ verify_otp 3 "bob@example.com" "123456" (snd r) = r.
Proof. vm_compute. done. Qed.

(** ** Partial updates *)

Lemma dump_field_lookup {A} k (inj : A → value) f d k' :
  dump_field k inj f d !! k'
  = match f with
    | Some v => if decide (k = k') then Some (from_option inj VNull v) else d !! k'
    | None => d !! k'
    end.
Proof.
  unfold dump_field. destruct f as [v|]; [|done].
  destruct (decide (k = k')) as [->|Hne].
  - by rewrite lookup_insert_eq.
  - by rewrite lookup_insert_ne.
Qed.

Lemma dump_field_empty {A} k (inj : A → value) f d :
  dump_field k inj f d = ∅ ↔ f = None ∧ d = ∅.
Proof.
  unfold dump_field. destruct f as [v|]; split.
  - intros He. by apply insert_non_empty in He.
  - by intros [? _].
  - done.
  - by intros [_ ?].
Qed.

(** The request sets no field exactly when the dumped dict is empty. *)
Lemma model_dump_empty p :
  model_dump_exclude_unset p = ∅ ↔ p = ProfileUpdate.unset.
Proof.
  unfold model_dump_exclude_unset. rewrite !dump_field_empty.
  destruct p as [n a g b i ph la ln]; simpl. split.
  - intros (-> & -> & -> & -> & -> & -> & -> & -> & _). done.
  - intros [= -> -> -> -> -> -> -> ->]. done.
Qed.


Lemma set_fields_lookup upd d k :
  fields (set_fields upd d) !! k
  = match upd !! k with
    | Some v => Some v
    | None => fields d !! k
    end.
Proof.
  unfold set_fields; simpl. rewrite lookup_union.
  destruct (upd !! k), (fields d !! k); done.
Qed.


Lemma update_first_found q upd c d :
  find_one q c = Some d →
  set_fields upd d ∈ update_first q upd c.
Proof.
  unfold find_one, find.
  induction c as [|e c IH]; simpl; [done|].
  rewrite filter_cons. destruct (satisfies q e) eqn:Hs; simpl.
  - intros [= ->]. left.
  - intros Hd. right. by apply IH.
Qed.

Lemma find_one_update_first_id o upd c :
  find_one (ById o) (update_first (ById o) upd c)
  = set_fields upd <$> find_one (ById o) c.
Proof.
  unfold find_one, find.
  induction c as [|e c IH]; [done|].
  simpl update_first.
  change (satisfies (ById o) e) with (bool_decide (doc_id e = o)).
  destruct (bool_decide (doc_id e = o)) eqn:Hs.
  - by rewrite !filter_cons_True by (simpl; by rewrite Hs).
  - rewrite !filter_cons_False by (simpl; rewrite Hs; intros []).
    apply IH.
Qed.

(** ** What [update_me] computes *)

Lemma update_me_run profile_id payload db :
  let update := model_dump_exclude_unset payload in
  update_me profile_id payload db
  = if decide (update = ∅) then (Return not_updated, db)
    else match Bson.ObjectId profile_id with
         | None => (Raise (InvalidId profile_id), db)
         | Some o =>
             if all_encodable update then
               (Return (to_doc_opt
                          (set_fields update <$> find_one (ById o) (coll db "profile"))),
                profiles_updated o update db)
             else (Raise OverflowError, db)
         end.
Proof.
  intros update. unfold update_me. fold update.
  destruct (decide (update = ∅)); [done|].
  run_monad. unfold object_id.
  destruct (Bson.ObjectId profile_id) as [o|]; [|done].
  run_monad. destruct (all_encodable update); [|done].
  unfold profiles_updated.
  by rewrite coll_insert_eq, find_one_update_first_id.
Qed.



(** ** C6: sparse profile updates *)


(** The stored profile of the specification's example, before and after
    an update with [{age: 30}]. *)
Example update_me_age_30 :
  let db := snd (create_document "profile" (profile_shell "eve@example.com") 1
                   empty_store) in
  let r := update_me (Bson.str 0%N) (only_age 30) db in
  (fields <$> coll (snd r) "profile")
  = [ {[ "email" := VStr "eve@example.com"; "name" := VStr "eve";
         "age" := VInt 30 ]} ]
  ∧ update_me (Bson.str 0%N) ProfileUpdate.unset db = (Return not_updated, db).
Proof. vm_compute. done. Qed.

(** ** ObjectId strings *)

Lemma string_length_app (s1 s2 : string) :
  String.length (s1 +:+ s2) = (String.length s1 + String.length s2)%nat.
Proof. induction s1 as [|c s1 IH]; simpl; [done|]. by rewrite IH. Qed.

Lemma parse_hex_app s1 s2 acc :
  Bson.parse_hex (s1 +:+ s2) acc
  = match Bson.parse_hex s1 acc with
    | Some acc' => Bson.parse_hex s2 acc'
    | None => None
    end.
Proof.
  revert acc. induction s1 as [|c s1 IH]; intros acc; simpl; [done|].
  destruct (Bson.hex_val c); [apply IH|done].
Qed.

Lemma hex_val_digit (d : N) :
  (d < 16)%N → Bson.hex_val (Bson.hex_digit d) = Some d.
Proof.
  intros Hd.
  assert (d ∈ (N.of_nat <$> seq 0 16)) as Hin.
  { apply list_elem_of_fmap. exists (N.to_nat d). split; [lia|].
    apply elem_of_seq. lia. }
  simpl in Hin.
  repeat (apply elem_of_cons in Hin as [->|Hin]; [reflexivity|]).
  by apply elem_of_nil in Hin.
Qed.

Lemma hex_not_space c : is_Some (Bson.hex_val c) → Bson.is_space c = false.
Proof.
  intros [v Hv]. unfold Bson.is_space. cbv zeta. apply bool_decide_eq_false.
  unfold Bson.hex_val in Hv. cbv zeta in Hv.
  repeat case_decide; simplify_eq; lia.
Qed.

Lemma hex_fixed_length k n : String.length (Bson.hex_fixed k n) = k.
Proof.
  revert n. induction k as [|k IH]; intros n; simpl; [done|].
  rewrite string_length_app, IH. simpl. lia.
Qed.

Lemma parse_hex_fixed k n acc :
  Bson.parse_hex (Bson.hex_fixed k n) acc
  = Some (acc * 16 ^ N.of_nat k + n `mod` 16 ^ N.of_nat k)%N.
Proof.
  revert n acc. induction k as [|k IH]; intros n acc.
  - simpl. f_equal. rewrite N.mod_1_r. lia.
  - cbn [Bson.hex_fixed]. rewrite parse_hex_app, IH. cbn [Bson.parse_hex].
    rewrite hex_val_digit by (apply N.mod_lt; lia). f_equal.
    rewrite Nat2N.inj_succ, N.pow_succ_r'.
    rewrite (N.Div0.mod_mul_r n 16 (16 ^ N.of_nat k)). lia.
Qed.

Lemma all_hex_app s1 s2 : all_hex (s1 +:+ s2) = all_hex s1 && all_hex s2.
Proof.
  induction s1 as [|c s1 IH]; simpl; [done|]. by rewrite IH, andb_assoc.
Qed.

Lemma all_hex_fixed k n : all_hex (Bson.hex_fixed k n) = true.
Proof.
  revert n. induction k as [|k IH]; intros n; simpl; [done|].
  rewrite all_hex_app, IH. simpl.
  rewrite hex_val_digit by (apply N.mod_lt; lia).
  by rewrite bool_decide_eq_true_2 by (by eexists).
Qed.

(** On an even number of hexadecimal digits [bytes.fromhex] finds one
    byte for every two digits, and the bytes write the same number as the
    digits. *)
Lemma fromhex_all_hex n s :
  String.length s = (2 * n)%nat → all_hex s = true →
  ∃ b, Bson.fromhex s = Some b ∧ List.length b = n
       ∧ ∀ acc, Bson.parse_hex s acc
                = Some (fold_left (λ a x, 256 * a + x)%N b acc).
Proof.
  revert s. induction n as [|n IH]; intros s Hl Hh.
  - destruct s; [|done]. by exists [].
  - destruct s as [|c [|c' s]]; [done|simpl in Hl; lia|].
    simpl in Hl. simpl in Hh.
    apply andb_true_iff in Hh as [Hc Hh]. apply andb_true_iff in Hh as [Hc' Hh].
    apply bool_decide_eq_true in Hc, Hc'.
    destruct (IH s) as (b & Hb & Hlen & Hp); [lia|done|].
    pose proof (hex_not_space c Hc) as Hsp.
    destruct Hc as [hi Hhi], Hc' as [lo Hlo].
    exists ((16 * hi + lo)%N :: b). split; [|split].
    + cbn [Bson.fromhex]. by rewrite Hsp, Hhi, Hlo, Hb.
    + simpl. lia.
    + intros acc. cbn [Bson.parse_hex]. rewrite Hhi, Hlo, Hp. simpl.
      do 2 f_equal. lia.
Qed.

(** A text [bytes.fromhex] accepts holds at least two characters for
    every byte, and exactly two only if it is all hexadecimal digits. *)
Lemma fromhex_length s b :
  Bson.fromhex s = Some b →
  (2 * List.length b ≤ String.length s)%nat
  ∧ ((2 * List.length b = String.length s)%nat → all_hex s = true).
Proof.
  remember (String.length s) as n eqn:Hn. revert s b Hn.
  induction n as [n IH] using lt_wf_ind. intros s b -> Hb.
  destruct s as [|c s]; [by simplify_eq/=|].
  cbn [Bson.fromhex] in Hb. destruct (Bson.is_space c) eqn:Hsp.
  - destruct (IH (String.length s)) with (s := s) (b := b) as [Hle _];
      [simpl; lia|done..|].
    split; simpl; lia.
  - destruct (Bson.hex_val c) as [hi|] eqn:Hhi; [|done].
    destruct s as [|c' s]; [done|].
    destruct (Bson.hex_val c') as [lo|] eqn:Hlo; [|done].
    apply fmap_Some in Hb as (b' & Hb' & ->).
    destruct (IH (String.length s)) with (s := s) (b := b') as [Hle Heq];
      [simpl; lia|done..|].
    split; [simpl; lia|]. simpl. intros H2. rewrite Hhi, Hlo.
    rewrite !bool_decide_eq_true_2 by (by eexists). simpl.
    apply Heq. lia.
Qed.

(** A character that is neither a hexadecimal digit nor whitespace makes
    [bytes.fromhex] fail. *)
Lemma fromhex_bad_char s :
  all_hex_or_space s = false → Bson.fromhex s = None.
Proof.
  enough (all_hex_or_space s = false →
          Bson.fromhex s = None ∧ ∀ c, Bson.fromhex (String c s) = None)
    as Hboth by (intros Hbad; by destruct (Hboth Hbad)).
  induction s as [|c s IH]; [done|]. intros Hbad.
  assert (Bson.fromhex (String c s) = None) as Hhere.
  { simpl in Hbad. apply andb_false_iff in Hbad as [Hc|Hs].
    - apply orb_false_iff in Hc as [Hh Hsp].
      apply bool_decide_eq_false in Hh.
      cbn [Bson.fromhex]. rewrite Hsp.
      destruct (Bson.hex_val c); [by destruct Hh|done].
    - by apply IH. }
  split; [done|]. intros c0. cbn [Bson.fromhex].
  destruct (Bson.is_space c0); [done|].
  destruct (Bson.hex_val c0) as [hi|]; [|done].
  destruct (Bson.hex_val c) as [lo|] eqn:Hlo; [|done].
  simpl in Hbad. rewrite Hlo in Hbad.
  rewrite bool_decide_eq_true_2 in Hbad by (by eexists). simpl in Hbad.
  destruct (IH Hbad) as [-> _]. done.
Qed.

(** [ObjectId(s)] raises exactly when [s] is not 24 characters that
    [bytes.fromhex] accepts. *)
Lemma ObjectId_None s :
  Bson.ObjectId s = None ↔ String.length s ≠ 24%nat ∨ Bson.fromhex s = None.
Proof.
  unfold Bson.ObjectId. destruct (decide (String.length s = 24%nat)) as [Hl|Hl].
  - rewrite fmap_None. split; [by right|]. by intros [?|?].
  - split; [by left|done].
Qed.

(** On 24 hexadecimal digits [ObjectId] is the number they write. *)
Lemma ObjectId_all_hex s :
  String.length s = 24%nat → all_hex s = true →
  Bson.ObjectId s = Bson.parse_hex s 0.
Proof.
  intros Hl Hh.
  destruct (fromhex_all_hex 12 s) as (b & Hb & Hlen & Hp); [done..|].
  unfold Bson.ObjectId. rewrite decide_True by done. rewrite Hb, Hp. simpl.
  unfold Bson.of_bytes. by rewrite decide_True by done.
Qed.

(** A text with a blank that [ObjectId] accepts stands for fewer than
    twelve bytes: an identifier the store never hands out. *)
Lemma ObjectId_blank s o :
  all_hex s = false → Bson.ObjectId s = Some o → (16 ^ 24 ≤ o)%N.
Proof.
  unfold Bson.ObjectId. intros Hh Ho.
  destruct (decide (String.length s = 24%nat)) as [Hl|]; [|done].
  apply fmap_Some in Ho as (b & Hb & ->).
  apply fromhex_length in Hb as [Hle Heq]. unfold Bson.of_bytes.
  destruct (decide (List.length b = 12%nat)) as [H12|].
  - rewrite Heq in Hh by lia. done.
  - rewrite <- N.add_assoc. apply N.le_add_r.
Qed.

(** Identifiers the store hands out are read back by [ObjectId]. *)
Lemma ObjectId_str (o : Bson.oid) :
  (o < 16 ^ 24)%N → Bson.ObjectId (Bson.str o) = Some o.
Proof.
  intros Ho. unfold Bson.str.
  rewrite ObjectId_all_hex by (apply hex_fixed_length || apply all_hex_fixed).
  rewrite parse_hex_fixed. f_equal.
  change (N.of_nat 24) with 24%N. rewrite N.mod_small by done. lia.
Qed.

(** ** C10: malformed identifiers *)

Lemma get_me_run profile_id db :
  get_me profile_id db
  = match Bson.ObjectId profile_id with
    | None => (Raise (InvalidId profile_id), db)
    | Some o =>
        match find_one (ById o) (coll db "profile") with
        | None => (Raise not_found, db)
        | Some d => (Return (to_doc d), db)
        end
    end.
Proof.
  unfold get_me, object_id. run_monad.
  destruct (Bson.ObjectId profile_id) as [o|]; [|done].
  run_monad. by destruct (find_one (ById o) (coll db "profile")).
Qed.

Lemma discover_run profile_id lim db :
  discover profile_id lim db
  = match Bson.ObjectId profile_id with
    | None => (Raise (InvalidId profile_id), db)
    | Some o =>
        (Return (JArr (to_doc <$> limit lim (find (ByIdNe o) (coll db "profile")))),
         db)
    end.
Proof.
  unfold discover, object_id. run_monad.
  by destruct (Bson.ObjectId profile_id).
Qed.

(** C10: [get_me] answers 404 exactly for an identifier that [ObjectId]
    accepts and that no stored profile has.  [ObjectId] accepts a text
    exactly when it has 24 characters and [bytes.fromhex] reads it: 24
    hexadecimal digits are accepted, a text of another length or with a
    character that is neither a hexadecimal digit nor whitespace is not.
    A 24-character text with blanks that [bytes.fromhex] reads is accepted
    too, and on a well-formed store [get_me] answers it with 404.  For a
    text [ObjectId] rejects the conversion raises [InvalidId] before any
    lookup; nothing handles it, so the caller gets the server error 500,
    neither 404 nor a validation error.  [update_me] (once it has an
    update to apply) and [discover] make the same unguarded conversion. *)
Theorem object_id_unguarded (profile_id : string) (db : Store) :
  (http_status (fst (get_me profile_id db)) = 404%Z
     ↔ ∃ o, Bson.ObjectId profile_id = Some o
            ∧ ∀ d, d ∈ coll db "profile" → doc_id d ≠ o)
  ∧ ((∃ o, Bson.ObjectId profile_id = Some o
           ∧ ∀ d, d ∈ coll db "profile" → doc_id d ≠ o) →
       get_me profile_id db = (Raise not_found, db))
  ∧ (Bson.ObjectId profile_id = None
       ↔ String.length profile_id ≠ 24%nat ∨ Bson.fromhex profile_id = None)
  ∧ (String.length profile_id ≠ 24%nat ∨ all_hex_or_space profile_id = false →
       Bson.ObjectId profile_id = None)
  ∧ (String.length profile_id = 24%nat → all_hex profile_id = true →
       ∃ o, Bson.ObjectId profile_id = Some o ∧ (o < 16 ^ 24)%N)
  ∧ (∀ o, all_hex profile_id = false → Bson.ObjectId profile_id = Some o →
       (16 ^ 24 ≤ o)%N
       ∧ (well_formed db → get_me profile_id db = (Raise not_found, db)))
  ∧ (Bson.ObjectId profile_id = None →
       get_me profile_id db = (Raise (InvalidId profile_id), db)
       ∧ http_status (fst (get_me profile_id db)) = 500%Z
       ∧ (∀ payload, payload ≠ ProfileUpdate.unset →
            update_me profile_id payload db = (Raise (InvalidId profile_id), db)
            ∧ http_status (fst (update_me profile_id payload db)) = 500%Z)
       ∧ (∀ lim, discover profile_id lim db = (Raise (InvalidId profile_id), db)
                 ∧ http_status (fst (discover profile_id lim db)) = 500%Z)).
Proof.
  assert (Hnf : (∃ o, Bson.ObjectId profile_id = Some o
                      ∧ ∀ d, d ∈ coll db "profile" → doc_id d ≠ o) →
                get_me profile_id db = (Raise not_found, db)).
  { intros (o & Ho & Hnone). rewrite get_me_run, Ho.
    assert (find_one (ById o) (coll db "profile") = None) as ->; [|done].
    apply find_one_None. intros d Hd Hs. apply (Hnone d Hd).
    simpl in Hs. by apply bool_decide_unpack in Hs. }
  split; [|split; [done|]].
  { split; [|by intros ->%Hnf].
    rewrite get_me_run.
    destruct (Bson.ObjectId profile_id) as [o|]; [|done].
    destruct (find_one (ById o) (coll db "profile")) as [d|] eqn:Hd; [done|].
    intros _. exists o. split; [done|].
    rewrite find_one_None in Hd. intros d Hin Heq. apply (Hd d Hin).
    simpl. by apply bool_decide_pack. }
  split; [apply ObjectId_None|].
  split.
  { intros [Hl|Hbad]; apply ObjectId_None; [by left|].
    right. by apply fromhex_bad_char. }
  split.
  { intros Hl Hh. rewrite ObjectId_all_hex by done.
    assert (∀ s acc, all_hex s = true →
              ∃ v, Bson.parse_hex s acc = Some v
                   ∧ (v < (acc + 1) * 16 ^ N.of_nat (String.length s))%N) as Hlt.
    { clear. induction s as [|c s IH]; intros acc Hh.
      - exists acc. split; [done|]. simpl. lia.
      - simpl in Hh. apply andb_true_iff in Hh as [Hc Hh].
        apply bool_decide_eq_true in Hc as [v Hv].
        assert (v < 16)%N as Hv16.
        { unfold Bson.hex_val in Hv. cbv zeta in Hv.
          repeat case_decide; simplify_eq; lia. }
        destruct (IH (16 * acc + v)%N Hh) as (w & Hw & Hlt).
        exists w. split; [by cbn [Bson.parse_hex]; rewrite Hv|].
        cbn [String.length]. rewrite Nat2N.inj_succ, N.pow_succ_r'. nia. }
    destruct (Hlt profile_id 0%N Hh) as (v & Hv & Hvlt).
    exists v. split; [done|]. rewrite Hl in Hvlt.
    change (N.of_nat 24) with 24%N in Hvlt. lia. }
  split.
  { intros o Hh Ho. pose proof (ObjectId_blank _ _ Hh Ho) as Hbig.
    split; [done|]. intros [Hids Hnext]. apply Hnf. exists o. split; [done|].
    intros d Hd Heq. specialize (Hids _ _ Hd). lia. }
  intros Hbad.
  assert (Hget : get_me profile_id db = (Raise (InvalidId profile_id), db))
    by (by rewrite get_me_run, Hbad).
  split; [done|]. split; [by rewrite Hget|]. split.
  - intros payload Hp.
    assert (update_me profile_id payload db = (Raise (InvalidId profile_id), db))
      as ->; [|done].
    rewrite update_me_run, Hbad.
    by rewrite decide_False by (by rewrite model_dump_empty).
  - intros lim. by rewrite discover_run, Hbad.
Qed.

(** C10 (as stated) fails for a text of hexadecimal pairs and blanks: it
    is not 24 hexadecimal digits, yet [ObjectId] accepts it and [get_me]
    answers NotFound (404), not a server error. *)
Lemma get_me_blanks_not_found :
  let s := "00 00 00 00 00 00 00 00 " in
  String.length s = 24%nat
  ∧ all_hex s = false
  ∧ Bson.fromhex s = Some [0; 0; 0; 0; 0; 0; 0; 0]%N
  ∧ get_me s empty_store = (Raise not_found, empty_store)
  ∧ http_status (fst (get_me s empty_store)) = 404%Z.
Proof. vm_compute. done. Qed.

Example get_me_malformed :
  get_me "42" empty_store = (Raise (InvalidId "42"), empty_store)
  ∧ get_me "zzzzzzzzzzzzzzzzzzzzzzzz" empty_store
    = (Raise (InvalidId "zzzzzzzzzzzzzzzzzzzzzzzz"), empty_store)
  ∧ get_me "0123456789abcdef01234567" empty_store = (Raise not_found, empty_store).
Proof. vm_compute. done. Qed.

(** What [ObjectId] makes of 24 characters: blanks between pairs are
    skipped, a blank inside a pair or an odd number of digits is an
    error. *)
Example ObjectId_blanks :
  Bson.ObjectId "0123456789abcdef01234567" = Some 0x0123456789abcdef01234567%N
  ∧ Bson.ObjectId "0123456789ABCDEF01234567" = Some 0x0123456789abcdef01234567%N
  ∧ Bson.ObjectId "                        " = Some (16 ^ 24 + 1)%N
  ∧ Bson.ObjectId "  0123456789abcdef0123  "
    = Some (16 ^ 24 + 256 ^ 10 + 0x0123456789abcdef0123)%N
  ∧ Bson.ObjectId "0 1234567890123456789012" = None
  ∧ Bson.ObjectId "01234567890123456789012 " = None
  ∧ Bson.ObjectId "0123456789abcdef0123456g" = None
  ∧ Bson.ObjectId "0123456789abcdef012345" = None.
Proof. vm_compute. done. Qed.

(** ** The identifiers of a store *)

Lemma well_formed_empty : well_formed empty_store.
Proof.
  split; [|done]. intros name d Hd. unfold coll in Hd; simpl in Hd.
  rewrite lookup_empty in Hd. by apply elem_of_nil in Hd.
Qed.

Lemma well_formed_inserted name data now db :
  well_formed db → (N.succ (next_id db) < 16 ^ 24)%N →
  well_formed (inserted name data now db).
Proof.
  intros [Hids _] Hnext. split; [|done].
  intros name' d Hd. simpl.
  destruct (decide (name = name')) as [<-|Hne].
  - rewrite coll_inserted_eq in Hd. apply elem_of_app in Hd as [Hd|Hd].
    + specialize (Hids _ _ Hd). lia.
    + apply list_elem_of_singleton in Hd as ->. simpl. lia.
  - rewrite coll_inserted_ne in Hd by done. specialize (Hids _ _ Hd). lia.
Qed.

Lemma well_formed_fresh db name d :
  well_formed db → d ∈ coll db name → doc_id d ≠ next_id db.
Proof. intros [Hids _] Hd. specialize (Hids _ _ Hd). lia. Qed.

(** ** C2: sending a message *)

Lemma store_constraint_message m s t :
  store_constraint "message" (message_record m s t)
  = bool_decide (1 ≤ String.length t ≤ 2000)%nat.
Proof. reflexivity. Qed.

Lemma send_message_run now m s t db :
  send_message now m s t db
  = if bool_decide (1 ≤ String.length t ≤ 2000)%nat then
      let db' := inserted "message" (message_record m s t) now db in
      match Bson.ObjectId (Bson.str (next_id db)) with
      | None => (Raise (InvalidId (Bson.str (next_id db))), db')
      | Some o => (Return (to_doc_opt (find_one (ById o) (coll db' "message"))), db')
      end
    else (Raise ValidationError, db).
Proof.
  unfold send_message. run_monad.
  change ({[ "match_id" := VStr m; "sender_id" := VStr s; "text" := VStr t ]})
    with (message_record m s t).
  destruct (bool_decide (1 ≤ String.length t ≤ 2000)%nat) eqn:Hlen.
  - rewrite create_document_accepted
      by (by rewrite store_constraint_message).
    unfold object_id.
    destruct (Bson.ObjectId (Bson.str (next_id db))); done.
  - by rewrite create_document_rejected
      by (by rewrite store_constraint_message).
Qed.

(** C2: [send_message] with an empty text or a text of more than 2000
    characters fails with a validation error and leaves the store as it
    was, so no message is appended.  With a text of 1 to 2000 characters
    the message collection grows by exactly one record (match, sender,
    text) and nothing else changes; in a well-formed store the handler
    returns that record, with its generated identifier under ["id"] and
    its timestamp under ["created_at"]. *)
Theorem send_message_validates (now : Z) (match_id sender_id text : string)
    (db : Store) :
  let r := send_message now match_id sender_id text db in
  let doc := Doc (next_id db) now (message_record match_id sender_id text) in
  (String.length text = 0%nat ∨ (2000 < String.length text)%nat →
     r = (Raise ValidationError, db))
  ∧ ((1 ≤ String.length text ≤ 2000)%nat →
     coll (snd r) "message" = (coll db "message" ++ [doc])%list
     ∧ (∀ name, name ≠ "message" → coll (snd r) name = coll db name)
     ∧ (well_formed db →
        fst r = Return (JObj (to_doc doc))
        ∧ to_doc doc !! "id" = Some (VStr (Bson.str (next_id db)))
        ∧ to_doc doc !! "created_at" = Some (VIso now)
        ∧ to_doc doc !! "match_id" = Some (VStr match_id)
        ∧ to_doc doc !! "sender_id" = Some (VStr sender_id)
        ∧ to_doc doc !! "text" = Some (VStr text))).
Proof.
  intros r doc. subst r. rewrite send_message_run. split.
  - intros Hbad. by rewrite bool_decide_eq_false_2 by lia.
  - intros Hok. rewrite bool_decide_eq_true_2 by done. cbv zeta.
    set (db' := inserted "message" (message_record match_id sender_id text) now db).
    assert (Hcoll : coll db' "message" = (coll db "message" ++ [doc])%list)
      by apply coll_inserted_eq.
    assert (Hsnd : snd (match Bson.ObjectId (Bson.str (next_id db)) with
                        | Some o => (Return (to_doc_opt
                                      (find_one (ById o) (coll db' "message"))), db')
                        | None => (Raise (InvalidId (Bson.str (next_id db))), db')
                        end) = db')
      by (by destruct (Bson.ObjectId _)).
    rewrite Hsnd. split; [done|]. split.
    { intros name Hne. by apply coll_inserted_ne. }
    intros Hwf. rewrite ObjectId_str by apply Hwf. simpl fst.
    rewrite Hcoll, find_one_snoc.
    assert (find_one (ById (next_id db)) (coll db "message") = None) as ->.
    { apply find_one_None. intros d Hd Hs.
      apply (well_formed_fresh db "message" d Hwf Hd).
      simpl in Hs. by apply bool_decide_unpack in Hs. }
    assert (satisfies (ById (next_id db)) doc = true) as ->
      by (simpl; by apply bool_decide_eq_true).
    repeat split; reflexivity.
Qed.

Example send_message_empty_text :
  send_message 9 "m1" "u1" "" empty_store = (Raise ValidationError, empty_store).
Proof. reflexivity. Qed.

Example send_message_hello :
  let r := send_message 9 "m1" "u1" "hello" empty_store in
  fst r = Return (JObj {[ "id" := VStr "000000000000000000000000";
                          "created_at" := VIso 9;
                          "match_id" := VStr "m1"; "sender_id" := VStr "u1";
                          "text" := VStr "hello" ]})
  ∧ List.length (coll (snd r) "message") = 1%nat.
Proof. vm_compute. done. Qed.

(** ** C8: listing the messages of a match *)










(** The example of the specification: 51 messages, default limit. *)
Example list_messages_51 :
  let db := send_many 51 1 empty_store in
  List.length (coll db "message") = 51%nat
  ∧ match fst (list_messages "m1" list_messages_default_limit db) with
    | Return (JArr l) =>
        (λ d : dict, d !! "created_at") <$> l
        = (λ t, Some (VIso t)) <$> seqZ 2 50
    | _ => False
    end.
Proof. vm_compute. done. Qed.

(** * Further properties of the handlers *)

(** ** Every request is a sequence of writes *)

Lemma dump_field_is_Some {A} key (inj : A → value) f d k :
  is_Some (dump_field key inj f d !! k) → k = key ∨ is_Some (d !! k).
Proof.
  rewrite dump_field_lookup. destruct f as [v|]; [|by right].
  destruct (decide (key = k)) as [->|]; [by left|by right].
Qed.

Lemma model_dump_keys p k :
  is_Some (model_dump_exclude_unset p !! k) → k ∈ update_keys.
Proof.
  unfold model_dump_exclude_unset, update_keys. intros Hk.
  repeat (apply dump_field_is_Some in Hk as [->|Hk];
          [repeat first [by left | right]|]).
  rewrite lookup_empty in Hk. by destruct Hk.
Qed.

Lemma store_after_writes r db : rtc write db (store_after r db).
Proof.
  destruct r as [now entropy email|now email code|pid|pid payload|pid lim
                |now pid target action|pid|m lim|now m sender text];
    unfold store_after.
  - rewrite request_otp_run. apply rtc_once, write_otp.
  - rewrite verify_otp_run.
    destruct (latest_otp db email) as [d|]; [|done].
    destruct (decide _); [done|].
    destruct (find_one (profile_of email) (coll db "profile")) eqn:Hp; [done|].
    by apply rtc_once, write_profile.
  - rewrite get_me_run. destruct (Bson.ObjectId pid) as [o|]; [|done].
    by destruct (find_one _ _).
  - rewrite update_me_run. destruct (decide _) as [|Hne]; [done|].
    destruct (Bson.ObjectId pid) as [o|]; [|done].
    destruct (all_encodable _); [|done].
    apply rtc_once, write_update; [done|]. apply model_dump_keys.
  - rewrite discover_run. by destruct (Bson.ObjectId pid).
  - destruct (decide (action = "like")) as [->|Hl].
    + rewrite swipe_like.
      set (db1 := inserted "swipe" (swipe_record pid target "like") now db).
      assert (write db db1) as Hw by (apply write_swipe; by left).
      destruct (find_one _ (coll db1 "swipe")); [|by apply rtc_once].
      destruct (find_one _ (coll db "match")) eqn:Hm; [by apply rtc_once|].
      eapply rtc_l; [exact Hw|]. apply rtc_once, write_match.
      unfold db1. by rewrite coll_inserted_ne.
    + destruct (decide (action = "pass")) as [->|Hp].
      * rewrite swipe_pass. apply rtc_once, write_swipe. by right.
      * by rewrite swipe_invalid.
  - done.
  - done.
  - rewrite send_message_run.
    destruct (bool_decide _) eqn:Hlen; [|done].
    apply bool_decide_eq_true in Hlen. cbv zeta.
    destruct (Bson.ObjectId _); by apply rtc_once, write_message.
Qed.

Lemma coll_profiles_updated o upd db name :
  coll (profiles_updated o upd db) name
  = if decide (name = "profile")
    then update_first (ById o) upd (coll db "profile")
    else coll db name.
Proof.
  unfold profiles_updated. destruct (decide (name = "profile")) as [->|Hne].
  - apply coll_insert_eq.
  - by apply coll_insert_ne.
Qed.

Lemma update_first_keeps {B} (f : document → B) q upd c :
  (∀ d, f (set_fields upd d) = f d) →
  f <$> update_first q upd c = f <$> c.
Proof.
  intros Hf. induction c as [|d c IH]; [done|]. cbn [update_first].
  destruct (satisfies q d); rewrite !fmap_cons; [by rewrite Hf|by rewrite IH].
Qed.

(** A property of stores that every write keeps holds in every
    reachable store. *)
Lemma reachable_invariant (P : Store → Prop) :
  P empty_store → (∀ db db', P db → write db db' → P db') →
  ∀ db, reachable db → P db.
Proof.
  intros Hempty Hwrite db Hdb.
  induction Hdb as [|db r _ IH]; [done|].
  pose proof (store_after_writes r db) as Hws.
  induction Hws as [|db1 db2 db3 Hw _ IHw]; eauto.
Qed.

Lemma coll_inserted n data now db name :
  coll (inserted n data now db) name
  = if decide (n = name)
    then (coll db name ++ [Doc (next_id db) now data])%list
    else coll db name.
Proof.
  destruct (decide (n = name)) as [->|Hne].
  - apply coll_inserted_eq.
  - by apply coll_inserted_ne.
Qed.

(** ** Nothing is deleted *)

Lemma write_keeps_documents db db' name :
  write db db' →
  (doc_id <$> coll db name) `prefix_of` (doc_id <$> coll db' name)
  ∧ (name ≠ "profile" → coll db name `prefix_of` coll db' name).
Proof.
  assert (Hins : ∀ n data now,
    (doc_id <$> coll db name)
      `prefix_of` (doc_id <$> coll (inserted n data now db) name)
    ∧ coll db name `prefix_of` coll (inserted n data now db) name).
  { intros n data now. rewrite coll_inserted.
    destruct (decide (n = name)); [|done].
    rewrite fmap_app. split; by apply prefix_app_r. }
  destruct 1; try (split; [apply Hins|intros _; apply Hins]).
  rewrite coll_profiles_updated.
  destruct (decide (name = "profile")) as [->|Hne]; [|done].
  split; [|done]. by rewrite update_first_keeps.
Qed.

(** X1: no request deletes or reorders anything.  In every collection
    the identifiers stored before a request are a prefix of those stored
    after it, and outside the profile collection (the only one updated in
    place) the documents themselves are. *)
Theorem nothing_deleted (r : request) (db : Store) (name : string) :
  (doc_id <$> coll db name) `prefix_of` (doc_id <$> coll (store_after r db) name)
  ∧ (name ≠ "profile" → coll db name `prefix_of` coll (store_after r db) name).
Proof.
  pose proof (store_after_writes r db) as Hws.
  induction Hws as [|db1 db2 db3 Hw _ IH]; [done|].
  destruct (write_keeps_documents db1 db2 name Hw) as [Hids Hdocs].
  destruct IH as [IHids IHdocs]. split.
  - by etrans.
  - intros Hne. etrans; [by apply Hdocs|by apply IHdocs].
Qed.

(** ** Identifiers *)

Lemma write_ids db db' :
  write db db' → ids_fresh db ∧ ids_unique db → ids_fresh db' ∧ ids_unique db'.
Proof.
  assert (Hins : ∀ n data now, ids_fresh db ∧ ids_unique db →
            ids_fresh (inserted n data now db)
            ∧ ids_unique (inserted n data now db)).
  { intros n data now [Hf Hu]. split.
    - intros name d. rewrite coll_inserted. simpl.
      destruct (decide (n = name)) as [->|].
      + rewrite elem_of_app, list_elem_of_singleton.
        intros [Hd| ->]; [specialize (Hf _ _ Hd)|simpl]; lia.
      + intros Hd. specialize (Hf _ _ Hd). lia.
    - intros name. rewrite coll_inserted.
      destruct (decide (n = name)) as [->|]; [|apply Hu].
      rewrite fmap_app. apply NoDup_app. split; [apply Hu|]. split.
      + intros x Hx. simpl. rewrite list_elem_of_singleton. intros ->.
        apply list_elem_of_fmap in Hx as (d & Hid & Hd).
        specialize (Hf _ _ Hd). lia.
      + apply NoDup_singleton. }
  destruct 1; try apply Hins.
  intros [Hf Hu]. split.
  - intros name d. rewrite coll_profiles_updated. simpl.
    destruct (decide (name = "profile")) as [->|]; [|apply Hf].
    intros Hd.
    assert (doc_id d ∈ doc_id <$> coll db "profile") as Hin.
    { rewrite <- (update_first_keeps doc_id (ById o) upd) by done.
      apply list_elem_of_fmap. eauto. }
    apply list_elem_of_fmap in Hin as (d0 & -> & Hd0). by apply (Hf "profile").
  - intros name. rewrite coll_profiles_updated.
    destruct (decide (name = "profile")) as [->|]; [|apply Hu].
    rewrite update_first_keeps by done. apply Hu.
Qed.

Lemma ids_empty : ids_fresh empty_store ∧ ids_unique empty_store.
Proof.
  split.
  - intros name d Hd. by apply elem_of_nil in Hd.
  - intros name. apply NoDup_nil_2.
Qed.

Lemma ids_reachable db : reachable db → ids_fresh db ∧ ids_unique db.
Proof.
  apply (reachable_invariant (λ db, ids_fresh db ∧ ids_unique db)).
  - apply ids_empty.
  - intros db1 db2 H12 Hw. by apply (write_ids db1 db2).
Qed.

(** X2: in every store the application can reach, stored identifiers
    were handed out by the store (they are below its counter) and no two
    documents of a collection share one. *)
Theorem reachable_ids (db : Store) :
  reachable db → ids_fresh db ∧ ids_unique db.
Proof. apply ids_reachable. Qed.

Lemma reachable_ids_witness :
  let db := store_after (Swipe 2 "B" "A" "like")
              (store_after (Swipe 1 "A" "B" "like") empty_store) in
  ids_fresh db ∧ ids_unique db.
Proof.
  apply reachable_ids. do 2 apply reachable_step. apply reachable_empty.
Defined.

(** ** Swipe actions, match records and emails *)

Lemma write_swipes_valid db db' : write db db' → swipes_valid db → swipes_valid db'.
Proof.
  destruct 1 as [| | ?????[-> | ->]| | |]; intros Hv d;
    rewrite ?coll_inserted, ?coll_profiles_updated; simpl;
    try apply Hv;
    rewrite elem_of_app, list_elem_of_singleton;
    (intros [Hd| ->]; [by apply Hv|]); [by left|by right].
Qed.

(** X3: every swipe record the application stores holds the action
    "like" or "pass", the two values of [schemas.Swipe]. *)
Theorem reachable_swipes_valid (db : Store) : reachable db → swipes_valid db.
Proof.
  apply (reachable_invariant swipes_valid).
  - intros d Hd. by apply elem_of_nil in Hd.
  - intros db1 db2 H12 Hw. by apply (write_swipes_valid db1 db2).
Qed.

Lemma reachable_swipes_valid_witness :
  swipes_valid (store_after (Swipe 2 "A" "B" "pass")
                  (store_after (Swipe 1 "A" "B" "maybe") empty_store)).
Proof.
  apply reachable_swipes_valid. do 2 apply reachable_step. apply reachable_empty.
Defined.

Lemma write_matches_typed db db' : write db db' → matches_typed db → matches_typed db'.
Proof.
  destruct 1; intros Hv d;
    rewrite ?coll_inserted, ?coll_profiles_updated; simpl;
    try apply Hv.
  rewrite elem_of_app, list_elem_of_singleton.
  intros [Hd| ->]; [by apply Hv|]. by exists p, t.
Qed.

Lemma reachable_matches_typed db : reachable db → matches_typed db.
Proof.
  apply (reachable_invariant matches_typed).
  - intros d Hd. by apply elem_of_nil in Hd.
  - intros db1 db2 H12 Hw. by apply (write_matches_typed db1 db2).
Qed.

Lemma set_fields_email upd d :
  (∀ k, is_Some (upd !! k) → k ∈ update_keys) →
  email_of (set_fields upd d) = email_of d.
Proof.
  intros Hkeys. unfold email_of. rewrite set_fields_lookup.
  destruct (upd !! "email") as [v|] eqn:Hv; [|done].
  assert ("email" ∈ update_keys) as Hin by (apply Hkeys; by eexists).
  unfold update_keys in Hin.
  repeat (apply elem_of_cons in Hin as [Hin|Hin]; [discriminate|]).
  by apply elem_of_nil in Hin.
Qed.

Lemma write_emails_unique db db' : write db db' → emails_unique db → emails_unique db'.
Proof.
  destruct 1 as [|db now email Hnone| | | |db o upd Hne Hkeys];
    intros [Hstr Hnd]; unfold emails_unique;
    rewrite ?coll_inserted, ?coll_profiles_updated; simpl; try done.
  - split.
    + intros d. rewrite elem_of_app, list_elem_of_singleton.
      intros [Hd| ->]; [by apply Hstr|]. by exists email.
    + rewrite fmap_app. apply NoDup_app. split; [done|]. split.
      * intros x Hx. simpl. rewrite list_elem_of_singleton. intros ->.
        apply list_elem_of_fmap in Hx as (d & Hid & Hd).
        rewrite find_one_None in Hnone. apply (Hnone d Hd).
        simpl. by apply bool_decide_pack.
      * apply NoDup_singleton.
  - rewrite (update_first_keeps email_of) by (intros d; by apply set_fields_email).
    split; [|done]. intros d Hd.
    assert (email_of d ∈ email_of <$> coll db "profile") as Hin.
    { rewrite <- (update_first_keeps email_of (ById o) upd)
        by (intros d'; by apply set_fields_email).
      apply list_elem_of_fmap. eauto. }
    apply list_elem_of_fmap in Hin as (d0 & -> & Hd0). by apply Hstr.
Qed.

(** X4: the application keeps one profile per email.  In every store it
    can reach each profile has a string email, no two profiles share
    one, and so the profile [verify_otp] finds for an email is the only
    one there is. *)
Theorem reachable_emails_unique (db : Store) :
  reachable db →
  emails_unique db
  ∧ ∀ email d1 d2,
      d1 ∈ coll db "profile" → d2 ∈ coll db "profile" →
      email_of d1 = Some (VStr email) → email_of d2 = Some (VStr email) →
      d1 = d2.
Proof.
  intros Hdb.
  assert (emails_unique db) as Hu.
  { revert db Hdb. apply (reachable_invariant emails_unique).
    - split; [|apply NoDup_nil_2]. intros d Hd. by apply elem_of_nil in Hd.
    - intros db1 db2 H12 Hw. by apply (write_emails_unique db1 db2). }
  split; [done|]. destruct Hu as [_ Hnd].
  intros email d1 d2 H1 H2 He1 He2.
  apply list_elem_of_lookup in H1 as [i Hi], H2 as [j Hj].
  assert (i = j) as ->; [|congruence].
  apply (NoDup_lookup _ i j (Some (VStr email)) Hnd);
    rewrite list_lookup_fmap; [by rewrite Hi; simpl; f_equal
                              |by rewrite Hj; simpl; f_equal].
Qed.

Lemma reachable_emails_unique_witness :
  let db1 := store_after (RequestOtp 1 23456 "bob@example.com") empty_store in
  let db2 := store_after (VerifyOtp 2 "bob@example.com" "123456") db1 in
  let db := store_after (VerifyOtp 3 "bob@example.com" "123456") db2 in
  emails_unique db
  ∧ ∀ email d1 d2,
      d1 ∈ coll db "profile" → d2 ∈ coll db "profile" →
      email_of d1 = Some (VStr email) → email_of d2 = Some (VStr email) →
      d1 = d2.
Proof.
  apply reachable_emails_unique. do 3 apply reachable_step. apply reachable_empty.
Defined.

(** ** The answer of [swipe] and the match collection *)

Lemma find_one_is_Some_iff q c :
  is_Some (find_one q c) ↔ ∃ d, d ∈ c ∧ satisfies q d.
Proof.
  split.
  - intros [d Hd]. exists d. by apply find_one_Some.
  - intros (d & Hin & Hs). by apply (find_one_is_Some q c d).
Qed.

Lemma liked_lookup target pid c :
  is_Some (find_one (liked_by target pid) c) ↔ ∃ d, d ∈ c ∧ is_like target pid d.
Proof.
  rewrite find_one_is_Some_iff. by setoid_rewrite satisfies_liked_by.
Qed.

Lemma match_lookup_None a b c :
  find_one (match_between a b) c = None ↔ ∀ d, d ∈ c → ¬ is_match_between a b d.
Proof. rewrite find_one_None. by setoid_rewrite satisfies_match_between. Qed.

(** X5: for a valid action [swipe] answers [match: true] exactly when
    the action is "like" and, once the swipe is recorded, the swipe
    collection holds a like of the target on the caller.  [match_id] is
    null exactly when the answer is [match: false]; otherwise it is the
    identifier of a stored match record of the two. *)
Theorem swipe_answer (now : Z) (profile_id target_id action : string) (db : Store) :
  action = "like" ∨ action = "pass" →
  let r := swipe now profile_id target_id action db in
  let recorded :=
    (coll db "swipe"
     ++ [Doc (next_id db) now (swipe_record profile_id target_id action)])%list in
  ∃ is_match match_id,
    fst r = Return (swipe_response is_match match_id)
    ∧ coll (snd r) "swipe" = recorded
    ∧ (is_match = true
       ↔ action = "like" ∧ ∃ d, d ∈ recorded ∧ is_like target_id profile_id d)
    ∧ (is_match = false ↔ match_id = VNull)
    ∧ (is_match = true →
       ∃ m, m ∈ coll (snd r) "match"
            ∧ is_match_between profile_id target_id m
            ∧ match_id = VStr (Bson.str (doc_id m))).
Proof.
  intros [-> | ->] r recorded; subst r.
  - rewrite swipe_like.
    set (db1 := inserted "swipe" (swipe_record profile_id target_id "like") now db).
    assert (Hrec : coll db1 "swipe" = recorded) by apply coll_inserted_eq.
    pose proof (liked_lookup target_id profile_id (coll db1 "swipe")) as Hliked.
    rewrite Hrec in Hliked. rewrite Hrec.
    destruct (find_one (liked_by target_id profile_id) recorded) as [l|] eqn:Hl.
    + assert (∃ d, d ∈ recorded ∧ is_like target_id profile_id d) as Hex
        by (apply Hliked; by eexists).
      destruct (find_one (match_between profile_id target_id) (coll db "match"))
        as [e|] eqn:He.
      * exists true, (VStr (Bson.str (doc_id e))). simpl fst. simpl snd.
        split; [done|]. split; [done|]. split; [done|]. split; [done|].
        intros _. exists e. apply find_one_Some in He as [Hin Hs].
        split; [unfold db1; by rewrite coll_inserted_ne|].
        split; [by apply satisfies_match_between|done].
      * exists true, (VStr (Bson.str (next_id db1))). simpl fst. simpl snd.
        split; [done|]. split; [by rewrite coll_inserted_ne|].
        split; [done|]. split; [done|].
        intros _. exists (Doc (next_id db1) now (match_record profile_id target_id)).
        split; [|split; [left; by split|done]].
        rewrite coll_inserted_eq, elem_of_app, list_elem_of_singleton. by right.
    + exists false, VNull. simpl fst. simpl snd.
      split; [done|]. split; [done|]. split; [|done].
      split; [done|]. intros [_ Hex]. apply Hliked in Hex. by destruct Hex.
  - rewrite swipe_pass. exists false, VNull. simpl fst. simpl snd.
    split; [done|]. split; [apply coll_inserted_eq|].
    split; [|done]. split; [done|]. by intros [? _].
Qed.

Lemma swipe_answer_witness :
  let db := snd (swipe 1 "B" "A" "like" empty_store) in
  let r := swipe 2 "A" "B" "like" db in
  let recorded :=
    (coll db "swipe" ++ [Doc (next_id db) 2 (swipe_record "A" "B" "like")])%list in
  ∃ is_match match_id,
    fst r = Return (swipe_response is_match match_id)
    ∧ coll (snd r) "swipe" = recorded
    ∧ (is_match = true
       ↔ "like" = "like" ∧ ∃ d, d ∈ recorded ∧ is_like "B" "A" d)
    ∧ (is_match = false ↔ match_id = VNull)
    ∧ (is_match = true →
       ∃ m, m ∈ coll (snd r) "match"
            ∧ is_match_between "A" "B" m
            ∧ match_id = VStr (Bson.str (doc_id m))).
Proof.
  apply (swipe_answer 2 "A" "B" "like"). by left.
Defined.

(** X6: [swipe] writes a match record in one case only: the action is
    "like", the target's like on the caller is in the swipe collection
    once the swipe is recorded, and no match of the two is stored in
    either order.  Then it appends exactly one record with the caller as
    user_a and the target as user_b.  A pass, an unanswered like, an
    invalid action and a pair that already has a match leave the match
    collection as it was. *)
Theorem swipe_match_collection (now : Z) (profile_id target_id action : string)
    (db : Store) :
  let db' := snd (swipe now profile_id target_id action db) in
  let recorded :=
    (coll db "swipe"
     ++ [Doc (next_id db) now (swipe_record profile_id target_id action)])%list in
  (action ≠ "like" → coll db' "match" = coll db "match")
  ∧ ((∀ d, d ∈ recorded → ¬ is_like target_id profile_id d) →
     coll db' "match" = coll db "match")
  ∧ ((∃ d, d ∈ coll db "match" ∧ is_match_between profile_id target_id d) →
     coll db' "match" = coll db "match")
  ∧ (action = "like" →
     (∃ d, d ∈ recorded ∧ is_like target_id profile_id d) →
     (∀ d, d ∈ coll db "match" → ¬ is_match_between profile_id target_id d) →
     coll db' "match"
     = (coll db "match"
        ++ [Doc (N.succ (next_id db)) now (match_record profile_id target_id)])%list).
Proof.
  intros db' recorded.
  assert (Hother : action ≠ "like" → coll db' "match" = coll db "match").
  { intros Hl. subst db'. destruct (decide (action = "pass")) as [->|Hp].
    - rewrite swipe_pass. by apply coll_inserted_ne.
    - by rewrite swipe_invalid. }
  split; [done|].
  destruct (decide (action = "like")) as [->|Hl]; [|by repeat split; auto].
  subst db'. rewrite swipe_like.
  set (db1 := inserted "swipe" (swipe_record profile_id target_id "like") now db).
  assert (Hrec : coll db1 "swipe" = recorded) by apply coll_inserted_eq.
  assert (Hm1 : coll db1 "match" = coll db "match") by (by apply coll_inserted_ne).
  pose proof (liked_lookup target_id profile_id recorded) as Hliked.
  pose proof (match_lookup_None profile_id target_id (coll db "match")) as Hnone.
  rewrite Hrec.
  destruct (find_one (liked_by target_id profile_id) recorded) as [l|] eqn:Hl.
  - destruct (find_one (match_between profile_id target_id) (coll db "match"))
      as [e|] eqn:He; simpl snd.
    + split; [done|]. split; [done|]. intros _ _ Hno. exfalso.
      apply find_one_Some in He as [Hin Hs]. apply (Hno e Hin).
      by apply satisfies_match_between.
    + assert (Hnew : coll (inserted "match" (match_record profile_id target_id) now db1)
                       "match"
                     = (coll db "match"
                        ++ [Doc (N.succ (next_id db)) now
                              (match_record profile_id target_id)])%list)
        by (by rewrite coll_inserted_eq, Hm1).
      split; [|split; [|done]].
      * intros Hno. exfalso.
        assert (is_Some (Some l)) as Hs by (by eexists).
        apply Hliked in Hs as (d & Hd & Hlike). by apply (Hno d).
      * intros (d & Hd & Hb). exfalso. by apply (proj1 Hnone eq_refl d).
  - simpl snd. split; [done|]. split; [done|].
    intros _ Hex. apply Hliked in Hex. by destruct Hex.
Qed.

(** ** Round trips through the store *)

Lemma ObjectId_str_total (o : Bson.oid) :
  Bson.ObjectId (Bson.str o) = Some (o `mod` 16 ^ 24)%N.
Proof.
  unfold Bson.str.
  rewrite ObjectId_all_hex by (apply hex_fixed_length || apply all_hex_fixed).
  by rewrite parse_hex_fixed.
Qed.

Lemma to_doc_id d : to_doc d !! "id" = Some (VStr (Bson.str (doc_id d))).
Proof. unfold to_doc. by rewrite lookup_insert_eq. Qed.

Lemma to_doc_field d k :
  k ≠ "id" → k ≠ "created_at" → to_doc d !! k = fields d !! k.
Proof. intros Hid Hc. unfold to_doc. by rewrite !lookup_insert_ne. Qed.

Lemma find_by_id db name d :
  ids_unique db → d ∈ coll db name →
  find_one (ById (doc_id d)) (coll db name) = Some d.
Proof.
  intros Hu Hd.
  destruct (find_one_is_Some (ById (doc_id d)) (coll db name) d Hd) as [e He].
  { simpl. by apply bool_decide_pack. }
  rewrite He. f_equal.
  apply find_one_Some in He as [Hin Hs]. simpl in Hs.
  apply bool_decide_unpack in Hs.
  apply list_elem_of_lookup in Hin as [i Hi], Hd as [j Hj].
  assert (i = j) as ->; [|congruence].
  apply (NoDup_lookup _ i j (doc_id d) (Hu name));
    rewrite list_lookup_fmap; [by rewrite Hi; simpl; f_equal|by rewrite Hj].
Qed.


(** X7: the conversion [ObjectId(mid)] in [send_message] cannot fail,
    since [mid] is an identifier the store has just written: the handler
    either stops with the validation error, the store untouched, or
    returns, the store holding the new message.  It never answers with
    [InvalidId] or an HTTP error. *)
Theorem send_message_outcomes (now : Z) (match_id sender_id text : string)
    (db : Store) :
  let r := send_message now match_id sender_id text db in
  (r = (Raise ValidationError, db)
   ∧ ¬ (1 ≤ String.length text ≤ 2000)%nat)
  ∨ (∃ j, r = (Return j,
               inserted "message" (message_record match_id sender_id text) now db)
          ∧ (1 ≤ String.length text ≤ 2000)%nat).
Proof.
  intros r. subst r. rewrite send_message_run.
  destruct (bool_decide _) eqn:Hlen.
  - right. apply bool_decide_eq_true in Hlen. cbv zeta.
    rewrite ObjectId_str_total. by eexists.
  - left. by apply bool_decide_eq_false in Hlen.
Qed.

Lemma latest_after_request now email code db :
  (∀ d, d ∈ coll db "otp" → fields d !! "email" = Some (VStr email) →
        (created_at d < now)%Z) →
  latest_otp (inserted "otp" {[ "email" := VStr email; "code" := VStr code ]} now db)
             email
  = Some (Doc (next_id db) now {[ "email" := VStr email; "code" := VStr code ]}).
Proof.
  intros Hlater. apply is_latest_otp_latest.
  split; [|split].
  - rewrite coll_inserted_eq, elem_of_app, list_elem_of_singleton. by right.
  - done.
  - intros d'. rewrite coll_inserted_eq, elem_of_app, list_elem_of_singleton.
    intros [Hd|Hd] He Hne; [by apply Hlater|done].
Qed.

(** X8: a code that was just issued is the one that verifies.  When
    [request_otp] runs at a time later than every OTP record stored for
    the email, [verify_otp] with the returned code succeeds on the
    resulting store, and with any other code it fails with 400 "Invalid
    code" and changes nothing, whatever codes were issued before. *)
Theorem request_then_verify (now now' entropy : Z) (email : string) (db : Store) :
  (∀ d, d ∈ coll db "otp" → fields d !! "email" = Some (VStr email) →
        (created_at d < now)%Z) →
  let r := request_otp now entropy email db in
  ∃ code,
    returned_field "code" (fst r) = Some (VStr code)
    ∧ (∃ out db', verify_otp now' email code (snd r) = (Return out, db'))
    ∧ (∀ other, other ≠ code →
         verify_otp now' email other (snd r) = (Raise invalid_code, snd r)).
Proof.
  intros Hlater r. subst r. rewrite request_otp_run. cbv zeta.
  set (code := Py.format_int (Py.randint 100000 999999 entropy)).
  exists code. simpl fst. simpl snd. split; [done|].
  pose proof (latest_after_request now email code db Hlater) as Hlatest.
  split.
  - rewrite verify_otp_run, Hlatest. simpl fields.
    rewrite decide_False by (by intros ?).
    destruct (find_one _ _); by eexists _, _.
  - intros other Hne. rewrite verify_otp_run, Hlatest. simpl fields.
    rewrite decide_True; [done|].
    change (Some (VStr code) ≠ Some (VStr other)). congruence.
Qed.

Lemma request_then_verify_witness :
  let db := snd (request_otp 1 11111 "ann@example.com" empty_store) in
  let r := request_otp 2 122222 "ann@example.com" db in
  ∃ code,
    returned_field "code" (fst r) = Some (VStr code)
    ∧ (∃ out db', verify_otp 3 "ann@example.com" code (snd r) = (Return out, db'))
    ∧ (∀ other, other ≠ code →
         verify_otp 3 "ann@example.com" other (snd r)
         = (Raise invalid_code, snd r)).
Proof.
  apply (request_then_verify 2 3 122222 "ann@example.com").
  intros d Hd _. vm_compute in Hd.
  apply list_elem_of_singleton in Hd as ->. simpl. lia.
Defined.

(** X9: the identifier [verify_otp] returns opens the profile.  In a
    store with fresh, distinct identifiers, after a successful
    [verify_otp] the returned [profile_id] is accepted by [get_me], which
    answers with a profile that carries that identifier and the verified
    email. *)
Theorem verify_then_get_me (now : Z) (email code : string) (db db' : Store)
    (out : dict) :
  ids_fresh db → ids_unique db → (next_id db < 16 ^ 24)%N →
  verify_otp now email code db = (Return out, db') →
  ∃ pid profile,
    out !! "profile_id" = Some (VStr pid)
    ∧ get_me pid db' = (Return profile, db')
    ∧ profile !! "id" = Some (VStr pid)
    ∧ profile !! "email" = Some (VStr email).
Proof.
  intros Hf Hu Hnext Hrun. rewrite verify_otp_run in Hrun.
  destruct (latest_otp db email) as [d|]; [|discriminate].
  destruct (decide _); [discriminate|].
  destruct (find_one (profile_of email) (coll db "profile")) as [e|] eqn:Hp.
  - injection Hrun as <- <-.
    apply find_one_Some in Hp as [Hin Hs]. simpl in Hs.
    apply bool_decide_unpack in Hs.
    exists (Bson.str (doc_id e)), (to_doc e).
    split; [done|]. split; [|split].
    + rewrite get_me_run, ObjectId_str.
      * by rewrite (find_by_id db "profile" e).
      * specialize (Hf _ _ Hin). lia.
    + apply to_doc_id.
    + by rewrite to_doc_field.
  - injection Hrun as <- <-.
    set (new := Doc (next_id db) now (profile_shell email)).
    exists (Bson.str (next_id db)), (to_doc new).
    split; [done|]. split; [|split].
    + rewrite get_me_run, ObjectId_str by done.
      rewrite coll_inserted_eq, find_one_snoc. fold new.
      assert (find_one (ById (next_id db)) (coll db "profile") = None) as ->.
      { apply find_one_None. intros d' Hd' Hs. simpl in Hs.
        apply bool_decide_unpack in Hs. specialize (Hf _ _ Hd'). lia. }
      assert (satisfies (ById (next_id db)) new = true) as ->
        by (simpl; by apply bool_decide_eq_true).
      done.
    + apply to_doc_id.
    + by rewrite to_doc_field.
Qed.

Lemma verify_then_get_me_witness :
  let email := "bob@example.com" in
  let db := snd (request_otp 1 23456 email empty_store) in
  let db' := inserted "profile" (profile_shell email) 2 db in
  ∃ pid profile,
    verify_response (Bson.str 1%N) !! "profile_id" = Some (VStr pid)
    ∧ get_me pid db' = (Return profile, db')
    ∧ profile !! "id" = Some (VStr pid)
    ∧ profile !! "email" = Some (VStr email).
Proof.
  intros email db db'.
  apply (verify_then_get_me 2 email "123456" db db').
  - apply ids_reachable. apply (reachable_step _ (RequestOtp 1 23456 email)).
    apply reachable_empty.
  - apply ids_reachable. apply (reachable_step _ (RequestOtp 1 23456 email)).
    apply reachable_empty.
  - vm_compute. reflexivity.
  - vm_compute. reflexivity.
Defined.

(** ** Discovery *)




(** ** A sent message is the last one listed *)



(** ** More on [update_me] *)

Lemma update_first_no_match q upd c :
  (∀ d, d ∈ c → satisfies q d = false) → update_first q upd c = c.
Proof.
  induction c as [|d c IH]; intros Hall; [done|]. simpl.
  rewrite (Hall d) by left. f_equal. apply IH. intros e He. apply Hall. by right.
Qed.

(** X12: [update_me] does not create profiles.  For an identifier that
    [ObjectId] accepts and that no stored profile has, a non-empty update
    the driver can encode returns [null], one it cannot encode raises
    [OverflowError], and either way every collection holds what it held
    before. *)
Theorem update_me_unknown_id (profile_id : string) (payload : ProfileUpdate.t)
    (db : Store) (o : Bson.oid) :
  payload ≠ ProfileUpdate.unset →
  Bson.ObjectId profile_id = Some o →
  (∀ d, d ∈ coll db "profile" → doc_id d ≠ o) →
  (all_encodable (model_dump_exclude_unset payload) = true →
     fst (update_me profile_id payload db) = Return JNull)
  ∧ (all_encodable (model_dump_exclude_unset payload) = false →
     fst (update_me profile_id payload db) = Raise OverflowError)
  ∧ ∀ name, coll (snd (update_me profile_id payload db)) name = coll db name.
Proof.
  intros Hp Ho Hnone. rewrite update_me_run, Ho.
  rewrite decide_False by (by rewrite model_dump_empty).
  destruct (all_encodable (model_dump_exclude_unset payload)); [|done].
  simpl fst. simpl snd.
  assert (Hsat : ∀ d, d ∈ coll db "profile" → satisfies (ById o) d = false).
  { intros d Hd. simpl. apply bool_decide_eq_false. by apply Hnone. }
  split; [|split; [done|]].
  - intros _.
    assert (find_one (ById o) (coll db "profile") = None) as ->; [|done].
    apply find_one_None. intros d Hd Hs. rewrite (Hsat d Hd) in Hs. done.
  - intros name. rewrite coll_profiles_updated.
    destruct (decide (name = "profile")) as [->|]; [|done].
    by apply update_first_no_match.
Qed.

Lemma update_me_unknown_id_witness :
  (all_encodable (model_dump_exclude_unset (only_age 30)) = true →
     fst (update_me "0123456789abcdef01234567" (only_age 30) empty_store)
     = Return JNull)
  ∧ (all_encodable (model_dump_exclude_unset (only_age 30)) = false →
     fst (update_me "0123456789abcdef01234567" (only_age 30) empty_store)
     = Raise OverflowError)
  ∧ ∀ name,
      coll (snd (update_me "0123456789abcdef01234567" (only_age 30) empty_store))
        name
      = coll empty_store name.
Proof.
  apply (update_me_unknown_id _ _ _ 0x0123456789abcdef01234567%N).
  - discriminate.
  - vm_compute. reflexivity.
  - intros d Hd. by apply elem_of_nil in Hd.
Defined.

(** An age of 2^63 does not fit eight bytes: the update of a stored
    profile ends in [OverflowError] and the profile keeps its fields. *)
Example update_me_age_overflow :
  let db := snd (create_document "profile" (profile_shell "eve@example.com") 1
                   empty_store) in
  update_me (Bson.str 0%N) (only_age (2 ^ 63)) db = (Raise OverflowError, db)
  ∧ http_status (fst (update_me (Bson.str 0%N) (only_age (2 ^ 63)) db)) = 500%Z.
Proof. vm_compute. done. Qed.

(** X13: what [update_me] returns is what [get_me] reads afterwards.
    When a non-empty update returns a profile, [get_me] with the same
    identifier on the resulting store returns that same profile. *)
Theorem update_then_get_me (profile_id : string) (payload : ProfileUpdate.t)
    (db db' : Store) (out : dict) :
  payload ≠ ProfileUpdate.unset →
  update_me profile_id payload db = (Return (JObj out), db') →
  get_me profile_id db' = (Return out, db').
Proof.
  intros Hp Hrun. rewrite update_me_run in Hrun.
  rewrite decide_False in Hrun by (by rewrite model_dump_empty).
  destruct (Bson.ObjectId profile_id) as [o|] eqn:Ho; [|discriminate].
  destruct (all_encodable _); [|discriminate].
  injection Hrun as Hout <-.
  rewrite get_me_run, Ho, coll_profiles_updated, decide_True by done.
  rewrite find_one_update_first_id.
  destruct (find_one (ById o) (coll db "profile")) as [d|]; [|discriminate].
  simpl in *. congruence.
Qed.

Lemma update_then_get_me_witness :
  let db := snd (create_document "profile" (profile_shell "eve@example.com") 1
                   empty_store) in
  let r := update_me (Bson.str 0%N) (only_age 30) db in
  ∃ out, fst r = Return (JObj out)
         ∧ get_me (Bson.str 0%N) (snd r) = (Return out, snd r).
Proof.
  intros db r.
  exists (to_doc (Doc 0%N 1%Z (<["age" := VInt 30]> (profile_shell "eve@example.com")))).
  assert (Hrun : r = (Return (JObj (to_doc (Doc 0%N 1%Z
                        (<["age" := VInt 30]> (profile_shell "eve@example.com"))))),
                      snd r)) by (vm_compute; reflexivity).
  split; [by rewrite Hrun|].
  apply (update_then_get_me (Bson.str 0%N) (only_age 30) db); [discriminate|].
  exact Hrun.
Defined.

(** X14: [update_me] can change the eight fields of [ProfileUpdate] and
    nothing else.  Whatever the request and its outcome, the profile
    collection keeps its identifiers and creation times in order, and
    every key outside those eight (the email among them) keeps its value
    in every profile. *)
Theorem update_me_keeps_identity (profile_id : string) (payload : ProfileUpdate.t)
    (db : Store) :
  let db' := snd (update_me profile_id payload db) in
  doc_id <$> coll db' "profile" = doc_id <$> coll db "profile"
  ∧ created_at <$> coll db' "profile" = created_at <$> coll db "profile"
  ∧ (∀ k, k ∉ update_keys →
       (λ d, fields d !! k) <$> coll db' "profile"
       = (λ d, fields d !! k) <$> coll db "profile")
  ∧ "email" ∉ update_keys.
Proof.
  intros db'. subst db'. rewrite update_me_run.
  assert (Hemail : "email" ∉ update_keys).
  { unfold update_keys. intros Hin.
    repeat (apply elem_of_cons in Hin as [Hin|Hin]; [discriminate|]).
    by apply elem_of_nil in Hin. }
  destruct (decide _); [done|].
  destruct (Bson.ObjectId profile_id) as [o|]; [|done].
  destruct (all_encodable _); [|done].
  simpl snd. rewrite coll_profiles_updated, decide_True by done.
  split; [by apply update_first_keeps|].
  split; [by apply update_first_keeps|]. split; [|done].
  intros k Hk. apply update_first_keeps. intros d.
  rewrite set_fields_lookup.
  destruct (model_dump_exclude_unset payload !! k) as [v|] eqn:Hv; [|done].
  destruct Hk. apply (model_dump_keys payload). by eexists.
Qed.

(** ** The default name of a profile *)

Lemma split_head_shape sep s :
  has_char sep (Py.split_head sep s) = false
  ∧ ∃ rest, s = Py.split_head sep s +:+ rest
            ∧ (rest = "" ∨ ∃ rest', rest = String sep rest').
Proof.
  induction s as [|c s [IHno (rest & IHs & IHrest)]]; simpl.
  - split; [done|]. exists "". by split; [|left].
  - destruct (decide (c = sep)) as [->|Hne]; simpl.
    + split; [done|]. exists (String sep s). split; [done|]. right. by eexists.
    + rewrite bool_decide_eq_false_2 by done. split; [done|].
      exists rest. split; [|done].
      change (String c s = String c (Py.split_head sep s +:+ rest)).
      by f_equal.
Qed.

Lemma string_app_empty_r (s : string) : s +:+ "" = s.
Proof.
  induction s as [|c s IH]; [done|].
  change (String c (s +:+ "") = String c s). by f_equal.
Qed.

Lemma has_char_app_sep c s r : has_char c (s +:+ String c r) = true.
Proof.
  induction s as [|c' s IH].
  - simpl. by rewrite bool_decide_eq_true_2.
  - change (has_char c (String c' (s +:+ String c r)) = true).
    simpl. rewrite IH. apply orb_true_r.
Qed.

(** X15: the name [verify_otp] gives a new profile is the part of the
    email before its first "@": it contains no "@", the email is that
    name followed by nothing or by a rest that starts with "@", and an
    email without "@" becomes the name as a whole. *)
Theorem default_name_shape (now : Z) (email code : string) (db db' : Store)
    (out : dict) :
  verify_otp now email code db = (Return out, db') →
  find_one (profile_of email) (coll db "profile") = None →
  ∃ name,
    last (coll db' "profile")
    = Some (Doc (next_id db) now
              {[ "email" := VStr email; "name" := VStr name ]})
    ∧ has_char "@" name = false
    ∧ (∃ rest, email = name +:+ rest
               ∧ (rest = "" ∨ ∃ rest', rest = String "@" rest'))
    ∧ (has_char "@" email = false → name = email).
Proof.
  intros Hrun Hnone. rewrite verify_otp_run, Hnone in Hrun.
  destruct (latest_otp db email) as [d|]; [|discriminate].
  destruct (decide _); [discriminate|]. injection Hrun as <- <-.
  exists (Py.split_head "@" email).
  destruct (split_head_shape "@" email) as (Hno & rest & Hsplit & Hrest).
  split; [by rewrite coll_inserted_eq, last_snoc|].
  split; [done|]. split; [by exists rest|].
  intros Hnoat. destruct Hrest as [->|[rest' ->]].
  - rewrite Hsplit at 2. by rewrite string_app_empty_r.
  - exfalso. rewrite Hsplit, has_char_app_sep in Hnoat. done.
Qed.

Lemma default_name_shape_witness :
  let email := "bob@example.com" in
  let db := snd (request_otp 1 23456 email empty_store) in
  ∃ name,
    last (coll (inserted "profile" (profile_shell email) 2 db) "profile")
    = Some (Doc (next_id db) 2 {[ "email" := VStr email; "name" := VStr name ]})
    ∧ has_char "@" name = false
    ∧ (∃ rest, email = name +:+ rest
               ∧ (rest = "" ∨ ∃ rest', rest = String "@" rest'))
    ∧ (has_char "@" email = false → name = email).
Proof.
  intros email db.
  apply (default_name_shape 2 email "123456" db _ (verify_response (Bson.str 1%N))).
  - vm_compute. reflexivity.
  - vm_compute. reflexivity.
Defined.

(** ** The matches of a profile *)

Lemma other_id_typed pid d :
  match_typed d →
  ∃ s, other_id pid (to_doc d) = inr s ∧ counterpart pid d = Some (VStr s).
Proof.
  intros (a & b & Ha & Hb). unfold other_id, counterpart.
  rewrite !to_doc_field, Ha by done.
  destruct (decide (a = pid)) as [->|Hne].
  - rewrite Hb, decide_True by done. by exists b.
  - rewrite decide_False by congruence. by exists a.
Qed.

Lemma matches_loop_typed pid profiles cursor :
  Forall match_typed cursor →
  (∃ out, matches_loop pid profiles cursor = inr (Return out)
          ∧ Forall2 (entry_of pid profiles) cursor out)
  ∨ (∃ s d, matches_loop pid profiles cursor = inr (Raise (InvalidId s))
            ∧ Bson.ObjectId s = None
            ∧ d ∈ cursor ∧ counterpart pid d = Some (VStr s)).
Proof.
  induction 1 as [|d cursor Hd _ IH]; [left; by exists []|].
  cbn [matches_loop]. cbv zeta.
  destruct (other_id_typed pid d Hd) as (s & -> & Hs).
  destruct (Bson.ObjectId s) as [o|] eqn:Ho.
  - destruct IH as [(out & -> & Hout)|(s' & d' & -> & Hs' & Hd' & Hc')].
    + left. eexists. split; [done|]. constructor; [|done].
      split; [done|]. by exists s, o.
    + right. exists s', d'. repeat split; try done. by right.
  - right. exists s, d. repeat split; try done. by left.
Qed.

Lemma matches_cursor pid db d :
  d ∈ sort_desc (find (involving pid) (coll db "match"))
  ↔ d ∈ coll db "match"
    ∧ (fields d !! "user_a" = Some (VStr pid)
       ∨ fields d !! "user_b" = Some (VStr pid)).
Proof.
  rewrite sort_desc_perm. unfold find. rewrite list_elem_of_filter. simpl.
  rewrite orb_True, !bool_decide_spec. tauto.
Qed.

(** X16: on the stores the application can reach, [matches] never
    trips over a match record ([KeyError], [TypeError]).  It goes through
    the match records that hold the caller as user_a or user_b, newest
    first, and either returns one entry per record, with the counterpart's
    profile (or null when none is stored) under "other", or fails with
    [InvalidId] for a counterpart whose identifier [ObjectId] rejects.
    It returns exactly when [ObjectId] accepts every counterpart
    identifier.  The store is not changed. *)
Theorem matches_of_reachable (profile_id : string) (db : Store) :
  reachable db →
  let mine := sort_desc (find (involving profile_id) (coll db "match")) in
  let profiles := coll db "profile" in
  snd (matches profile_id db) = db
  ∧ (∀ d, d ∈ mine
          ↔ d ∈ coll db "match"
            ∧ (fields d !! "user_a" = Some (VStr profile_id)
               ∨ fields d !! "user_b" = Some (VStr profile_id)))
  ∧ StronglySorted newer mine
  ∧ ((∃ out, fst (matches profile_id db) = inr (Return out)
             ∧ Forall2 (entry_of profile_id profiles) mine out)
     ∨ (∃ s d, fst (matches profile_id db) = inr (Raise (InvalidId s))
               ∧ Bson.ObjectId s = None
               ∧ d ∈ mine ∧ counterpart profile_id d = Some (VStr s)))
  ∧ ((∀ d s, d ∈ mine → counterpart profile_id d = Some (VStr s) →
             is_Some (Bson.ObjectId s))
     ↔ ∃ out, fst (matches profile_id db) = inr (Return out)).
Proof.
  intros Hdb mine profiles.
  split; [done|]. split; [apply matches_cursor|].
  split; [apply sort_desc_sorted|].
  assert (Htyped : Forall match_typed mine).
  { apply Forall_forall. intros d Hd. apply matches_cursor in Hd as [Hd _].
    by apply (reachable_matches_typed db). }
  pose proof (matches_loop_typed profile_id profiles mine Htyped) as Hloop.
  split; [exact Hloop|]. split.
  - intros Hvalid.
    destruct Hloop as [(out & Hout & _)|(s & d & _ & Hs & Hd & Hc)];
      [by exists out|].
    destruct (Hvalid d s Hd Hc) as [o Ho]. congruence.
  - intros [out Hout].
    destruct Hloop as [(out' & _ & Hall)|(s & d & Hfail & _)];
      [|unfold matches in Hout; simpl fst in Hout; fold mine profiles in Hout;
        rewrite Hfail in Hout; discriminate].
    intros d s Hd Hc.
    apply list_elem_of_lookup in Hd as [i Hi].
    destruct (Forall2_lookup_l _ _ _ _ _ Hall Hi) as (e & _ & _ & s' & o & Hc' & Ho & _).
    assert (s = s') as -> by congruence. by eexists.
Qed.

Lemma matches_of_reachable_witness :
  let db := store_after (Swipe 2 "B" "A" "like")
              (store_after (Swipe 1 "A" "B" "like") empty_store) in
  let mine := sort_desc (find (involving "A") (coll db "match")) in
  let profiles := coll db "profile" in
  snd (matches "A" db) = db
  ∧ (∀ d, d ∈ mine
          ↔ d ∈ coll db "match"
            ∧ (fields d !! "user_a" = Some (VStr "A")
               ∨ fields d !! "user_b" = Some (VStr "A")))
  ∧ StronglySorted newer mine
  ∧ ((∃ out, fst (matches "A" db) = inr (Return out)
             ∧ Forall2 (entry_of "A" profiles) mine out)
     ∨ (∃ s d, fst (matches "A" db) = inr (Raise (InvalidId s))
               ∧ Bson.ObjectId s = None
               ∧ d ∈ mine ∧ counterpart "A" d = Some (VStr s)))
  ∧ ((∀ d s, d ∈ mine → counterpart "A" d = Some (VStr s) →
             is_Some (Bson.ObjectId s))
     ↔ ∃ out, fst (matches "A" db) = inr (Return out)).
Proof.
  apply (matches_of_reachable "A"). do 2 apply reachable_step. apply reachable_empty.
Defined.

Lemma counterpart_of_match a b d :
  is_match_between a b d → counterpart a d = Some (VStr b).
Proof.
  unfold counterpart. intros [[Ha Hb]|[Ha Hb]].
  - by rewrite decide_True.
  - destruct (decide (fields d !! "user_a" = Some (VStr a))) as [Heq|]; [|done].
    rewrite Hb. congruence.
Qed.

(** X17: [swipe] takes any strings as identifiers, [matches] does not.
    When a like is answered with [match: true] and [ObjectId] rejects
    the target's identifier, [matches] for the caller afterwards fails
    with [InvalidId], that is with a server error, instead of listing
    the match. *)
Theorem matches_after_swipe_with_bad_id (now : Z) (profile_id target_id : string)
    (db : Store) :
  reachable db →
  Bson.ObjectId target_id = None →
  returned_field "match" (fst (swipe now profile_id target_id "like" db))
  = Some (VBool true) →
  let db' := snd (swipe now profile_id target_id "like" db) in
  ∃ s, matches profile_id db' = (inr (Raise (InvalidId s)), db')
       ∧ Bson.ObjectId s = None
       ∧ http_status (A := list match_entry) (Raise (InvalidId s)) = 500%Z.
Proof.
  intros Hdb Hbad Hmatch db'.
  assert (Hdb' : reachable db')
    by apply (reachable_step db (Swipe now profile_id target_id "like") Hdb).
  assert (Hm : ∃ m, m ∈ coll db' "match" ∧ is_match_between profile_id target_id m).
  { subst db'. revert Hmatch. rewrite swipe_like.
    set (db1 := inserted "swipe" (swipe_record profile_id target_id "like") now db).
    destruct (find_one _ (coll db1 "swipe")); [|discriminate].
    destruct (find_one (match_between profile_id target_id) (coll db "match"))
      as [e|] eqn:He; intros _; simpl snd.
    - exists e. apply find_one_Some in He as [Hin Hs].
      split; [unfold db1; by rewrite coll_inserted_ne|].
      by apply satisfies_match_between.
    - exists (Doc (next_id db1) now (match_record profile_id target_id)).
      split; [|left; by split].
      rewrite coll_inserted_eq, elem_of_app, list_elem_of_singleton. by right. }
  destruct Hm as (m & Hin & Hbetween).
  pose proof (counterpart_of_match _ _ _ Hbetween) as Hc.
  set (mine := sort_desc (find (involving profile_id) (coll db' "match"))).
  assert (Hmine : m ∈ mine).
  { apply matches_cursor. split; [done|].
    destruct Hbetween as [[Ha _]|[_ Hb]]; [by left|by right]. }
  assert (Htyped : Forall match_typed mine).
  { apply Forall_forall. intros d Hd. apply matches_cursor in Hd as [Hd _].
    by apply (reachable_matches_typed db'). }
  destruct (matches_loop_typed profile_id (coll db' "profile") mine Htyped)
    as [(out & _ & Hall)|(s & d & Hfail & Hs & _)].
  - exfalso. apply list_elem_of_lookup in Hmine as [i Hi].
    destruct (Forall2_lookup_l _ _ _ _ _ Hall Hi)
      as (e & _ & _ & s' & o & Hc' & Ho & _).
    congruence.
  - exists s. split; [|done]. unfold matches. fold mine. by rewrite Hfail.
Qed.

Lemma matches_after_swipe_with_bad_id_witness :
  let db := store_after (Swipe 1 "bob" "ann" "like") empty_store in
  let db' := snd (swipe 2 "ann" "bob" "like" db) in
  ∃ s, matches "ann" db' = (inr (Raise (InvalidId s)), db')
       ∧ Bson.ObjectId s = None
       ∧ http_status (A := list match_entry) (Raise (InvalidId s)) = 500%Z.
Proof.
  apply (matches_after_swipe_with_bad_id 2 "ann" "bob").
  - apply reachable_step, reachable_empty.
  - reflexivity.
  - reflexivity.
Defined.

(** ** Which collections a request writes, and when *)


Lemma writes_touch r db name :
  name ∉ touched r → coll (store_after r db) name = coll db name.
Proof.
  destruct r as [now entropy email|now email code|pid|pid payload|pid lim
                |now pid target action|pid|m lim|now m sender text];
    unfold store_after, touched; intros Hname.
  - rewrite request_otp_run. apply coll_inserted_ne. set_solver.
  - rewrite verify_otp_run.
    destruct (latest_otp db email) as [d|]; [|done].
    destruct (decide _); [done|].
    destruct (find_one (profile_of email) (coll db "profile")); [done|].
    apply coll_inserted_ne. set_solver.
  - rewrite get_me_run. destruct (Bson.ObjectId pid) as [o|]; [|done].
    by destruct (find_one _ _).
  - rewrite update_me_run. destruct (decide _); [done|].
    destruct (Bson.ObjectId pid) as [o|]; [|done].
    destruct (all_encodable _); [|done].
    simpl snd. rewrite coll_profiles_updated, decide_False; [done|set_solver].
  - rewrite discover_run. by destruct (Bson.ObjectId pid).
  - assert (name ≠ "swipe" ∧ name ≠ "match") as [Hs Hm] by set_solver.
    destruct (decide (action = "like")) as [->|Hl].
    + rewrite swipe_like.
      set (db1 := inserted "swipe" (swipe_record pid target "like") now db).
      assert (coll db1 name = coll db name) as H1
        by (apply coll_inserted_ne; congruence).
      destruct (find_one _ (coll db1 "swipe")); [|done].
      destruct (find_one _ (coll db "match")); [done|].
      simpl snd. rewrite coll_inserted_ne by congruence. done.
    + destruct (decide (action = "pass")) as [->|Hp].
      * rewrite swipe_pass. apply coll_inserted_ne. congruence.
      * by rewrite swipe_invalid.
  - done.
  - done.
  - rewrite send_message_run. destruct (bool_decide _); [|done]. cbv zeta.
    destruct (Bson.ObjectId _); apply coll_inserted_ne; set_solver.
Qed.

(** X19: each request writes to its own collections only: [request_otp]
    to otp, [verify_otp] and [update_me] to profile, [swipe] to swipe and
    match, [send_message] to message.  Every other collection holds
    after the request what it held before, and [get_me], [discover],
    [matches] and [list_messages] return the store itself. *)
Theorem requests_touch_own_collections (r : request) (db : Store) :
  (∀ name, name ∉ touched r → coll (store_after r db) name = coll db name)
  ∧ (touched r = [] → store_after r db = db).
Proof.
  split; [intros name; apply writes_touch|].
  destruct r; try discriminate; intros _; unfold store_after.
  - rewrite get_me_run. destruct (Bson.ObjectId _) as [o|]; [|done].
    by destruct (find_one _ _).
  - rewrite discover_run. by destruct (Bson.ObjectId _).
  - done.
  - done.
Qed.

Lemma raised_before_write r db : raises r db → store_after r db = db.
Proof.
  destruct r as [now entropy email|now email code|pid|pid payload|pid lim
                |now pid target action|pid|m lim|now m sender text];
    unfold raises, store_after.
  - rewrite request_otp_run. by intros [e ?].
  - rewrite verify_otp_run.
    destruct (latest_otp db email) as [d|]; [|done].
    destruct (decide _); [done|].
    destruct (find_one (profile_of email) (coll db "profile")); [done|].
    by intros [e ?].
  - rewrite get_me_run. destruct (Bson.ObjectId pid) as [o|]; [|done].
    by destruct (find_one _ _).
  - rewrite update_me_run. destruct (decide _); [done|].
    destruct (Bson.ObjectId pid) as [o|]; [|done].
    destruct (all_encodable _); [|done]. by intros [e ?].
  - rewrite discover_run. by destruct (Bson.ObjectId pid).
  - destruct (decide (action = "like")) as [->|Hl].
    + rewrite swipe_like.
      destruct (find_one _ _); [|by intros [e ?]].
      destruct (find_one _ _); by intros [e ?].
    + destruct (decide (action = "pass")) as [->|Hp].
      * rewrite swipe_pass. by intros [e ?].
      * by rewrite swipe_invalid.
  - done.
  - done.
  - rewrite send_message_run. destruct (bool_decide _); [|done]. cbv zeta.
    rewrite ObjectId_str_total. by intros [e ?].
Qed.

(** X20: an exception raised inside a handler comes before the handler's
    first write: the store after such a request is the store before it
    (400 and 404 answers, an identifier [ObjectId] rejects, a rejected
    message, an update the driver cannot encode).  A failure after the
    handler has returned does not undo its write: [update_me] with a
    float that is not finite returns without an exception, the selected
    profile holds that float afterwards, and the request is answered 500
    because the returned profile cannot be rendered. *)
Theorem failed_requests_write_nothing (r : request) (db : Store) :
  (raises r db → store_after r db = db)
  ∧ (∀ profile_id payload o d k x,
       r = UpdateMe profile_id payload →
       Bson.ObjectId profile_id = Some o →
       find_one (ById o) (coll db "profile") = Some d →
       all_encodable (model_dump_exclude_unset payload) = true →
       model_dump_exclude_unset payload !! k = Some (VFloat x) →
       is_finite (VFloat x) = false →
       let d' := set_fields (model_dump_exclude_unset payload) d in
       ¬ raises r db
       ∧ fst (update_me profile_id payload db) = Return (JObj (to_doc d'))
       ∧ d' ∈ coll (store_after r db) "profile"
       ∧ fields d' !! k = Some (VFloat x)
       ∧ response (fst (update_me profile_id payload db)) = Raise ValueError
       ∧ http_status (response (fst (update_me profile_id payload db))) = 500%Z).
Proof.
  split; [apply raised_before_write|].
  intros pid payload o d k x -> Ho Hd Henc Hk Hx d'.
  assert (Hrun : update_me pid payload db
                 = (Return (JObj (to_doc d')),
                    profiles_updated o (model_dump_exclude_unset payload) db)).
  { rewrite update_me_run, Ho, Henc, Hd.
    rewrite decide_False; [done|]. intros He. by rewrite He in Hk. }
  assert (Hfield : fields d' !! k = Some (VFloat x)).
  { unfold d'. by rewrite set_fields_lookup, Hk. }
  assert (Hbad : json_compliant (to_doc d') = false).
  { apply bool_decide_eq_false. intros Hall.
    assert (k ∈ update_keys) as Hin
      by (apply (model_dump_keys payload); by eexists).
    assert (to_doc d' !! k = Some (VFloat x)) as Hdoc.
    { rewrite to_doc_field; [done|..]; intros ->; unfold update_keys in Hin;
        repeat (apply elem_of_cons in Hin as [Hin|Hin]; [discriminate|]);
        by apply elem_of_nil in Hin. }
    specialize (Hall _ _ Hdoc). cbv beta in Hall. by rewrite Hx in Hall. }
  split; [|split; [|split; [|split; [|split]]]].
  - unfold raises. rewrite Hrun. by intros [e ?].
  - by rewrite Hrun.
  - unfold store_after. rewrite Hrun. simpl snd.
    rewrite coll_profiles_updated, decide_True by done.
    by apply update_first_found.
  - done.
  - rewrite Hrun. simpl. by rewrite Hbad.
  - rewrite Hrun. simpl. by rewrite Hbad.
Qed.

(** A request whose [location_lat] is infinite: the profile is updated,
    the answer is 500. *)
Example update_me_infinite_latitude :
  let db := snd (create_document "profile" (profile_shell "eve@example.com") 1
                   empty_store) in
  let payload :=
    {| ProfileUpdate.name := None; ProfileUpdate.age := None;
       ProfileUpdate.gender := None; ProfileUpdate.bio := None;
       ProfileUpdate.interests := None; ProfileUpdate.photos := None;
       ProfileUpdate.location_lat := Some (Some (S754_infinity false));
       ProfileUpdate.location_lng := None |} in
  let r := update_me (Bson.str 0%N) payload db in
  http_status (response (fst r)) = 500%Z
  ∧ (fields <$> coll (snd r) "profile")
    = [ {[ "email" := VStr "eve@example.com"; "name" := VStr "eve";
           "location_lat" := VFloat (S754_infinity false) ]} ]
  ∧ snd r ≠ db.
Proof. vm_compute. split; [done|]. split; [done|]. discriminate. Qed.
